(** * visagist: the classification engine of [src/lib/classify.ts]

    A shallow embedding of the meme classifier's decision engine: the
    model-lifecycle state (the module-level [classifier] handle and
    [modelStatus]), single and batch classification, and the
    confidence-weighted, margin-based labelling of
    [determineMemeClassification].

    JavaScript numbers are IEEE 754 binary64 values; they are modelled by
    Rocq's primitive floats, so the thresholds 0.8, 0.6 and 0.3 and the
    subtraction behind the margin round exactly as they do in the program.
    The calls to the logger change nothing that is modelled and are left
    out. *)

From Stdlib Require Import ZArith Lia Bool Ascii String Floats.
From stdpp Require Import base list.

Set Warnings "-inexact-float".

Local Open Scope string_scope.
Local Open Scope list_scope.

(** ** JavaScript numbers *)

Module Js.

(** [x || 0.0] on a number: [NaN], [+0] and [-0] are falsy. *)
Definition or_zero (x : float) : float :=
  if PrimFloat.is_nan x || PrimFloat.is_zero x then 0%float else x.

(** [Math.max(a, b)]: [NaN] if either argument is [NaN]; [+0] is
    larger than [-0]. *)
Definition Math_max (a b : float) : float :=
  if PrimFloat.is_nan a || PrimFloat.is_nan b then PrimFloat.nan
  else if PrimFloat.ltb a b then b
  else if PrimFloat.ltb b a then a
  else if PrimFloat.get_sign a then b else a.

(** [Math.abs(x)]. *)
Definition Math_abs (x : float) : float := PrimFloat.abs x.

(** [a > b] and [a >= b]. *)
Definition gt (a b : float) : bool := PrimFloat.ltb b a.
Definition ge (a b : float) : bool := PrimFloat.leb b a.
Definition lt (a b : float) : bool := PrimFloat.ltb a b.

(** [String.prototype.toLowerCase], on ASCII letters. *)
Definition lower_ascii (c : ascii) : ascii :=
  let n := nat_of_ascii c in
  if (65 <=? n)%nat && (n <=? 90)%nat then ascii_of_nat (n + 32) else c.

Fixpoint toLowerCase (s : string) : string :=
  match s with
  | EmptyString => EmptyString
  | String c s' => String (lower_ascii c) (toLowerCase s')
  end.

(** [s.includes(needle)]: [needle] occurs somewhere in [s]. *)
Fixpoint includes (s needle : string) : bool :=
  String.prefix needle s ||
  match s with
  | EmptyString => false
  | String _ s' => includes s' needle
  end.

End Js.

(** ** The decision algorithm *)

(** One entry of the raw inference result.  The declared type is
    [{ label: string; score: number }]; the program reads the label through
    [?.], so an absent label is kept as [None]. *)
Record LabelScore := {
  label : option string;
  score : float;
}.

(** The anonymous [{ isMeme, confidence }] the decision returns. *)
Module Decision.
Record t := {
  isMeme : bool;
  confidence : float;
}.
End Decision.

(** [result.label?.toLowerCase().includes(needle)], [undefined] read as
    falsy. *)
Definition labelIncludes (result : LabelScore) (needle : string) : bool :=
  match label result with
  | Some l => Js.includes (Js.toLowerCase l) needle
  | None => false
  end.

(** The callback of the first [results.find]. *)
Definition isMemeLabel (result : LabelScore) : bool :=
  labelIncludes result "meme" && negb (labelIncludes result "not").

(** The callback of the second [results.find]. *)
Definition isNotMemeLabel (result : LabelScore) : bool :=
  labelIncludes result "not meme" ||
  (labelIncludes result "meme" && labelIncludes result "not").

(** [found?.score || 0.0]. *)
Definition scoreOrZero (found : option LabelScore) : float :=
  match found with
  | Some r => Js.or_zero (score r)
  | None => 0%float
  end.

Definition highConfidenceThreshold : float := 0.8%float.
Definition lowConfidenceThreshold : float := 0.6%float.
Definition smallMarginThreshold : float := 0.3%float.

Definition determineMemeClassification (results : list LabelScore) : Decision.t :=
  let memeResult := List.find isMemeLabel results in
  let notMemeResult := List.find isNotMemeLabel results in
  let memeScore := scoreOrZero memeResult in
  let notMemeScore := scoreOrZero notMemeResult in
  let winnerScore := Js.Math_max memeScore notMemeScore in
  let margin := Js.Math_abs (memeScore - notMemeScore)%float in
  let memeIsWinner := Js.gt memeScore notMemeScore in
  let isMeme :=
    if Js.ge winnerScore highConfidenceThreshold then memeIsWinner
    else if Js.lt winnerScore lowConfidenceThreshold then true
    else if Js.lt margin smallMarginThreshold then true
    else memeIsWinner in
  {| Decision.isMeme := isMeme; Decision.confidence := memeScore |}.

(** ** The world the engine runs in *)

Inductive Device := webgpu | wasm.

Inductive ModelStatus := loading | downloading | ready | error.

(** A thrown value, by its message ([new Error(message)]). *)
Inductive Exception := Error (message : string).

Definition message (e : Exception) : string :=
  match e with Error m => m end.

(** How a promise owned by the inference runtime settles. *)
Inductive Settlement (A : Type) :=
| Fulfilled (value : A)
| Failed (reason : Exception).
Arguments Fulfilled {A} value.
Arguments Failed {A} reason.

(** What [await classifier(imageUrl)] may evaluate to: anything. *)
Inductive RawOutput :=
| RawUndefined
| RawNonArray
| RawArray (results : list LabelScore).

(** The handle.  [infer k url] is the settlement of the call
    [classifier(url)] made after [k] earlier inference calls. *)
Record ImageClassificationPipeline := {
  device : Device;
  infer : nat -> string -> Settlement RawOutput;
}.

(** The collaborators: [pipeline k d] answers the acquisition of a backend
    on device [d] made after [k] earlier acquisitions, [performance_now k]
    is the [k]-th reading of the clock, and [promiseAllFault] is a failure
    of [Promise.all] itself, if the engine is to suffer one. *)
Record Env := {
  pipeline : nat -> Device -> Settlement ImageClassificationPipeline;
  performance_now : nat -> float;
  promiseAllFault : option Exception;
}.

(** The module-level variables [classifier] and [modelStatus], with the
    history of the calls made to the collaborators. *)
Record World := {
  classifier : option ImageClassificationPipeline;
  modelStatus : ModelStatus;
  acquisitions : list Device;
  inferences : list string;
  clockReads : nat;
}.

Definition initialWorld : World :=
  {| classifier := None; modelStatus := loading;
     acquisitions := []; inferences := []; clockReads := 0 |}.

Definition set_classifier (h : ImageClassificationPipeline) (w : World) : World :=
  {| classifier := Some h; modelStatus := modelStatus w;
     acquisitions := acquisitions w; inferences := inferences w;
     clockReads := clockReads w |}.

Definition set_modelStatus (s : ModelStatus) (w : World) : World :=
  {| classifier := classifier w; modelStatus := s;
     acquisitions := acquisitions w; inferences := inferences w;
     clockReads := clockReads w |}.

Definition record_acquisition (d : Device) (w : World) : World :=
  {| classifier := classifier w; modelStatus := modelStatus w;
     acquisitions := acquisitions w ++ [d]; inferences := inferences w;
     clockReads := clockReads w |}.

Definition record_inference (url : string) (w : World) : World :=
  {| classifier := classifier w; modelStatus := modelStatus w;
     acquisitions := acquisitions w; inferences := inferences w ++ [url];
     clockReads := clockReads w |}.

Definition tick (w : World) : World :=
  {| classifier := classifier w; modelStatus := modelStatus w;
     acquisitions := acquisitions w; inferences := inferences w;
     clockReads := S (clockReads w) |}.

(** ** Computations: state, exceptions, promises that never settle *)

Inductive Completion (A : Type) :=
| Normal (value : A)
| Throw (e : Exception)
| Unsettled.
Arguments Normal {A} value.
Arguments Throw {A} e.
Arguments Unsettled {A}.

Definition M (A : Type) : Type := World -> Completion A * World.

Definition ret {A} (a : A) : M A := fun w => (Normal a, w).

Definition throw {A} (e : Exception) : M A := fun w => (Throw e, w).

Definition bind {A B} (m : M A) (k : A -> M B) : M B :=
  fun w =>
    match m w with
    | (Normal a, w') => k a w'
    | (Throw e, w') => (Throw e, w')
    | (Unsettled, w') => (Unsettled, w')
    end.

(** [try { body } catch (e) { handler e }]. *)
Definition try_catch {A} (body : M A) (handler : Exception -> M A) : M A :=
  fun w =>
    match body w with
    | (Throw e, w') => handler e w'
    | done => done
    end.

Definition modify (f : World -> World) : M unit := fun w => (Normal tt, f w).

Definition read {A} (f : World -> A) : M A := fun w => (Normal (f w), w).

Declare Scope js_scope.
Delimit Scope js_scope with js.
Notation "x <- m ;; k" := (bind m (fun x => k))
  (at level 100, m at next level, right associativity) : js_scope.
Notation "m ;;; k" := (bind m (fun _ => k))
  (at level 100, right associativity) : js_scope.
Local Open Scope js_scope.

(** The promise an [async] function hands back at its first [await] on the
    inference runtime: already settled, or waiting for [reply] with the rest
    of the function body as continuation. *)
Inductive Promise (A : Type) :=
| Settled (c : Completion A)
| Pending (reply : Settlement RawOutput) (resume : Settlement RawOutput -> M A).
Arguments Settled {A} c.
Arguments Pending {A} reply resume.

Definition Async (A : Type) : Type := World -> Promise A * World.

(** [await p] on a runtime promise, once it has settled. *)
Definition settled {A} (s : Settlement A) : M A :=
  match s with
  | Fulfilled v => ret v
  | Failed e => throw e
  end.

(** [await f(...)] with nothing else running in between. *)
Definition await {A} (call : Async A) : M A :=
  fun w =>
    match call w with
    | (Settled c, w') => (c, w')
    | (Pending reply resume, w') => resume reply w'
    end.

(** ** The engine *)

Definition HUGGINGFACE_MODEL : string := "prettyirrelevant/meme-detector-onnx".

Record ClassificationResult := {
  isMeme : bool;
  confidence : float;
  inferenceTimeMs : float;
}.

(** [{ isMeme: false, confidence: 0, inferenceTimeMs }]. *)
Definition safeDefault (inferenceTimeMs : float) : ClassificationResult :=
  {| isMeme := false; confidence := 0%float;
     inferenceTimeMs := inferenceTimeMs |}.

(** Thrown by [classifyImage] and [classifyImageBatch] when [classifier]
    is [null]. *)
Definition ModelNotLoadedError : Exception :=
  Error "model not loaded. call loadModel() first.".

(** Thrown by [loadModel] when no backend could be acquired. *)
Definition ModelLoadError : Exception :=
  Error ("unable to load model: " ++ HUGGINGFACE_MODEL).

(** [Array.prototype.map] with a callback that acts on the world. *)
Fixpoint array_map {A B} (f : A -> World -> B * World) (l : list A)
  : World -> list B * World :=
  fun w =>
    match l with
    | [] => ([], w)
    | x :: l' =>
        let '(y, w1) := f x w in
        let '(ys, w2) := array_map f l' w1 in
        (y :: ys, w2)
    end.

(** [Promise.all]: one slot per promise, in the order of the input. *)
Definition initialSlot {A} (p : Promise A) : option A :=
  match p with
  | Settled (Normal a) => Some a
  | _ => None
  end.

Fixpoint firstRejected {A} (promises : list (Promise A)) : option Exception :=
  match promises with
  | [] => None
  | Settled (Throw e) :: _ => Some e
  | _ :: rest => firstRejected rest
  end.

Fixpoint collect {A} (slots : list (option A)) : option (list A) :=
  match slots with
  | [] => Some []
  | Some a :: rest =>
      match collect rest with
      | Some l => Some (a :: l)
      | None => None
      end
  | None :: _ => None
  end.

(** The event loop resumes the pending promises in the order [schedule]
    lists their indices: the order in which the inference calls complete.
    An index that is out of range or already settled is passed over. *)
Fixpoint settleAll {A} (promises : list (Promise A)) (schedule : list nat)
    (slots : list (option A)) : M (list (option A)) :=
  match schedule with
  | [] => ret slots
  | i :: later =>
      match promises !! i, slots !! i with
      | Some (Pending reply resume), Some None =>
          a <- resume reply ;;
          settleAll promises later (<[i := Some a]> slots)
      | _, _ => settleAll promises later slots
      end
  end.

Section Engine.

Variable env : Env.

(** [performance.now()]. *)
Definition performanceNow : M float :=
  fun w => (Normal (performance_now env (clockReads w)), tick w).

(** [await pipeline('image-classification', HUGGINGFACE_MODEL,
    { device, dtype: 'q8' })]. *)
Definition acquire (d : Device) : M ImageClassificationPipeline :=
  fun w =>
    settled (pipeline env (length (acquisitions w)) d) (record_acquisition d w).

(** [Promise.all(promises)], awaited: rejected by the first rejected
    input, fulfilled with the values in input order once every input is
    fulfilled, and unsettled as long as one of them is. *)
Definition Promise_all {A} (schedule : list nat) (promises : list (Promise A))
  : M (list A) :=
  match promiseAllFault env with
  | Some e => throw e
  | None =>
      match firstRejected promises with
      | Some e => throw e
      | None =>
          slots <- settleAll promises schedule (map initialSlot promises) ;;
          match collect slots with
          | Some values => ret values
          | None => fun w => (Unsettled, w)
          end
      end
  end.

(** Loads the model: nothing to do with a handle in place; otherwise the
    accelerated device first, the software one if that fails. *)
Definition loadModel : M unit :=
  c <- read classifier ;;
  match c with
  | Some _ =>
      modify (set_modelStatus ready)
  | None =>
      try_catch
        (modify (set_modelStatus downloading) ;;;
         try_catch
           (h <- acquire webgpu ;;
            modify (set_classifier h) ;;;
            modify (set_modelStatus ready))
           (fun webgpuError =>
              h <- acquire wasm ;;
              modify (set_classifier h) ;;;
              modify (set_modelStatus ready)))
        (fun _error =>
           modify (set_modelStatus error) ;;;
           throw ModelLoadError)
  end.

Definition isArray (v : RawOutput) : bool :=
  match v with
  | RawArray _ => true
  | _ => false
  end.

Definition elements (v : RawOutput) : list LabelScore :=
  match v with
  | RawArray results => results
  | _ => []
  end.

(** [classifyImage] from its [await] on: the [try] block once the
    inference has settled with [reply], and the [catch] block. *)
Definition classifyImage_resume (startTimeMs : float)
    (reply : Settlement RawOutput) : M ClassificationResult :=
  try_catch
    (results <- settled reply ;;
     now <- performanceNow ;;
     let inferenceTimeMs := (now - startTimeMs)%float in
     if negb (isArray results) || (length (elements results) =? 0)%nat
     then ret (safeDefault inferenceTimeMs)
     else
       let d := determineMemeClassification (elements results) in
       ret {| isMeme := Decision.isMeme d;
              confidence := Decision.confidence d;
              inferenceTimeMs := inferenceTimeMs |})
    (fun _error =>
       now <- performanceNow ;;
       let inferenceTimeMs := (now - startTimeMs)%float in
       ret (safeDefault inferenceTimeMs)).

(** [classifyImage] up to its [await]: the guard, the start timestamp and
    the call of the handle. *)
Definition classifyImage (imageUrl : string) : Async ClassificationResult :=
  fun w =>
    match classifier w with
    | None => (Settled (Throw ModelNotLoadedError), w)
    | Some handle =>
        let startTimeMs := performance_now env (clockReads w) in
        let w1 := tick w in
        let reply := infer handle (length (inferences w1)) imageUrl in
        let w2 := record_inference imageUrl w1 in
        (Pending reply (classifyImage_resume startTimeMs), w2)
    end.

(** Classifies the images in parallel.  [schedule] is the order in which
    the runtime completes the inference calls, by index. *)
Definition classifyImageBatch (schedule : list nat) (imageUrls : list string)
  : M (list ClassificationResult) :=
  c <- read classifier ;;
  match c with
  | None => throw ModelNotLoadedError
  | Some _ =>
      if (length imageUrls =? 0)%nat then ret []
      else
        try_catch
          (classificationPromises <-
             (fun w => let '(ps, w') := array_map classifyImage imageUrls w in
                       (Normal ps, w')) ;;
           results <- Promise_all schedule classificationPromises ;;
           (* memeCount and avgInferenceTimeMs only feed the log *)
           ret results)
          (fun _error =>
             ret (map (fun _ => safeDefault 0%float) imageUrls))
  end.

Definition getModelStatus : M ModelStatus := read modelStatus.

Definition isModelReady : M bool :=
  read (fun w =>
          match classifier w, modelStatus w with
          | Some _, ready => true
          | _, _ => false
          end).

End Engine.

(** ** The order of binary64 values

    Every value but [NaN] gets a key in [Z * Z * Z], ordered
    lexicographically: the class (infinities, negative, zero, positive),
    then the exponent, then the mantissa. *)

Definition SFkey (x : spec_float) : option (Z * Z * Z) :=
  match x with
  | S754_nan => None
  | S754_infinity true => Some (-2, 0, 0)%Z
  | S754_infinity false => Some (2, 0, 0)%Z
  | S754_zero _ => Some (0, 0, 0)%Z
  | S754_finite true m e => Some (-1, - e, Zneg m)%Z
  | S754_finite false m e => Some (1, e, Zpos m)%Z
  end.

Definition lex3 (a b : Z * Z * Z) : comparison :=
  let '(a1, a2, a3) := a in
  let '(b1, b2, b3) := b in
  match (a1 ?= b1)%Z with
  | Eq => match (a2 ?= b2)%Z with
          | Eq => (a3 ?= b3)%Z
          | c => c
          end
  | c => c
  end.

Definition fkey (x : float) : option (Z * Z * Z) := SFkey (Prim2SF x).

(** The lexicographic order, spelled out for [lia]. *)
Definition lexlt (a b : Z * Z * Z) : Prop :=
  let '(a1, a2, a3) := a in
  let '(b1, b2, b3) := b in
  (a1 < b1 \/ (a1 = b1 /\ (a2 < b2 \/ (a2 = b2 /\ a3 < b3))))%Z.

(** A number: any binary64 value but [NaN]. *)
Definition isNumber (x : float) : Prop := PrimFloat.is_nan x = false.

(** ** The decision rule, as the specification words it *)

Inductive Band := HighConfidence | LowConfidence | MediumConfidence.

Definition confidenceBand (winner : float) : Band :=
  if Js.ge winner 0.8%float then HighConfidence
  else if Js.lt winner 0.6%float then LowConfidence
  else MediumConfidence.

Definition decisionRule (memeScore notMemeScore : float) : bool :=
  let winner := Js.Math_max memeScore notMemeScore in
  let margin := Js.Math_abs (memeScore - notMemeScore)%float in
  let memeIsWinner := Js.gt memeScore notMemeScore in
  match confidenceBand winner with
  | HighConfidence => memeIsWinner
  | LowConfidence => true
  | MediumConfidence => if Js.lt margin 0.3%float then true else memeIsWinner
  end.

(** ** What the engine is expected to return *)

(** What a classification comes to, given how the inference settled and
    the time it took: the decision on a non-empty array, the safe default on
    anything else. *)
Definition classificationOf (reply : Settlement RawOutput) (elapsed : float)
  : ClassificationResult :=
  match reply with
  | Fulfilled (RawArray (r :: rs)) =>
      let d := determineMemeClassification (r :: rs) in
      {| isMeme := Decision.isMeme d;
         confidence := Decision.confidence d;
         inferenceTimeMs := elapsed |}
  | _ => safeDefault elapsed
  end.

(** The world after [k] more readings of the clock. *)
Definition advance (k : nat) (w : World) : World :=
  {| classifier := classifier w; modelStatus := modelStatus w;
     acquisitions := acquisitions w; inferences := inferences w;
     clockReads := clockReads w + k |}.

(** The world after the calls [classifier(url)] for [urls], each timed. *)
Definition started (urls : list string) (w : World) : World :=
  {| classifier := classifier w; modelStatus := modelStatus w;
     acquisitions := acquisitions w; inferences := inferences w ++ urls;
     clockReads := clockReads w + length urls |}.

(** The promises [imageUrls.map(url => classifyImage(url))] creates from
    world [w]: call [i] is the [i]-th inference and clock reading from
    there. *)
Definition promisesFor (env : Env) (handle : ImageClassificationPipeline)
    (w : World) (urls : list string) : list (Promise ClassificationResult) :=
  imap (fun i url =>
          Pending (infer handle (length (inferences w) + i) url)
                  (classifyImage_resume env
                     (performance_now env (clockReads w + i))))
       urls.

(** The result of promise [i] of a batch when it is resumed at clock
    reading [c]: [replyOf i] is how its inference settles and [startOf i] its
    start timestamp. *)
Definition settledAt (env : Env) (replyOf : nat -> Settlement RawOutput)
    (startOf : nat -> float) (i c : nat) : ClassificationResult :=
  classificationOf (replyOf i) (performance_now env c - startOf i)%float.

(** ** Sample inputs and collaborators *)

(** A raw result with the two classes of the model. *)
Definition twoClass (memeScore notMemeScore : float) : list LabelScore :=
  [ {| label := Some "meme"; score := memeScore |};
    {| label := Some "not meme"; score := notMemeScore |} ].

(** Only the not-meme class was reported. *)
Definition onlyNotMeme : list LabelScore :=
  [ {| label := Some "not meme"; score := 0.97%float |} ].

(** Only the meme class was reported. *)
Definition onlyMeme : list LabelScore :=
  [ {| label := Some "meme"; score := 0.97%float |} ].

(** A handle that answers every image with the two classes at 0.63 and
    0.37. *)
Definition sampleHandle : ImageClassificationPipeline :=
  {| device := wasm;
     infer := fun _ _ => Fulfilled (RawArray (twoClass 0.63 0.37)) |}.

(** A handle whose inference always throws. *)
Definition brokenHandle : ImageClassificationPipeline :=
  {| device := webgpu; infer := fun _ _ => Failed (Error "fetch failed") |}.

(** A handle whose inference gives back an empty array. *)
Definition emptyHandle : ImageClassificationPipeline :=
  {| device := webgpu; infer := fun _ _ => Fulfilled (RawArray []) |}.

(** A handle that tells the two sample images apart. *)
Definition pickyHandle : ImageClassificationPipeline :=
  {| device := webgpu;
     infer := fun _ url =>
       if (url =? "cat.png")%string
       then Fulfilled (RawArray (twoClass 0.08 0.92))
       else Fulfilled (RawArray (twoClass 0.82 0.18)) |}.

(** No backend can be acquired. *)
Definition noBackendEnv : Env :=
  {| pipeline := fun _ _ => Failed (Error "no available backend");
     performance_now := fun k => PrimFloat.of_uint63 (Uint63.of_nat k);
     promiseAllFault := None |}.

(** The accelerated backend fails, the software one is acquired. *)
Definition wasmOnlyEnv : Env :=
  {| pipeline := fun _ d =>
       match d with
       | webgpu => Failed (Error "webgpu unavailable")
       | wasm => Fulfilled sampleHandle
       end;
     performance_now := fun k => PrimFloat.of_uint63 (Uint63.of_nat k);
     promiseAllFault := None |}.

(** As [wasmOnlyEnv], with [Promise.all] failing. *)
Definition faultyWaitEnv : Env :=
  {| pipeline := pipeline wasmOnlyEnv;
     performance_now := performance_now wasmOnlyEnv;
     promiseAllFault := Some (Error "out of memory") |}.

Definition loadedWorld : World :=
  set_modelStatus ready (set_classifier sampleHandle initialWorld).

Definition pickyWorld : World :=
  set_modelStatus ready (set_classifier pickyHandle initialWorld).

(** ** Histories of calls

    The exported functions, as a client may call them one after the other,
    each against its own collaborators. *)

Inductive Call :=
| CallLoadModel
| CallClassifyImage (imageUrl : string)
| CallClassifyImageBatch (schedule : list nat) (imageUrls : list string)
| CallGetModelStatus
| CallIsModelReady.

(** The world a call leaves behind. *)
Definition after (env : Env) (c : Call) (w : World) : World :=
  match c with
  | CallLoadModel => snd (loadModel env w)
  | CallClassifyImage imageUrl => snd (await (classifyImage env imageUrl) w)
  | CallClassifyImageBatch schedule imageUrls =>
      snd (classifyImageBatch env schedule imageUrls w)
  | CallGetModelStatus => snd (getModelStatus w)
  | CallIsModelReady => snd (isModelReady w)
  end.

Inductive Reachable : World -> Prop :=
| Reachable_initial : Reachable initialWorld
| Reachable_call (env : Env) (c : Call) (w : World) :
    Reachable w -> Reachable (after env c w).

(** Slot [i] of a [Promise.all] in progress holds a value. *)
Definition filled {A} (slots : list (option A)) (i : nat) : Prop :=
  exists a, slots !! i = Some (Some a).

(** The accelerated backend is acquired at once. *)
Definition webgpuEnv : Env :=
  {| pipeline := fun _ _ => Fulfilled pickyHandle;
     performance_now := fun k => PrimFloat.of_uint63 (Uint63.of_nat k);
     promiseAllFault := None |}.

(** * The application of [src/App.tsx]

    The component's signals, its handlers and the calls they make to the
    engine.  Rendering is left out; so is [averageAccuracy], whose
    [Math.round] has no counterpart here. *)

Module App.

(** A call of [processFile] suspended at [await classifyImage(imageUrl)]. *)
Record InFlight := {
  resultId : string;
  startTime : float;
  promise : Promise ClassificationResult;
}.

Inductive Status := StatusLoading | StatusCompleted | StatusError.

(** The [ClassificationResult] of the component: one card of the grid. *)
Record ClassificationResult := {
  id : string;
  filename : string;
  imageUrl : string;
  isMeme : bool;
  confidence : float;
  inferenceTimeMs : float;
  status : Status;
  error : option string;
  timestamp : float;
}.

(** What the component reads of a [File]. *)
Record File := {
  name : string;
  type : string;
}.

(** A row of the exported data. *)
Record ExportRow := {
  row_filename : string;
  row_isMeme : bool;
  row_confidence : float;
  row_timestamp : string;
}.

(** The browser around the component.  For the [k]-th call of
    [processFile]: [resultIdAt k] is its [`${Date.now()}_${Math.random()}`],
    [objectUrlAt k] its [URL.createObjectURL(file)] and [timestampAt k] its
    second [Date.now()].  For the [k]-th export: [exportUrlAt k] is the URL
    of the blob and [exportNameAt k] the name of the download.
    [toISOString t] is [new Date(t).toISOString()]. *)
Record Runtime := {
  engine : Env;
  resultIdAt : nat -> string;
  objectUrlAt : nat -> string;
  timestampAt : nat -> float;
  exportUrlAt : nat -> string;
  exportNameAt : nat -> string;
  toISOString : float -> string;
}.

(** The signals of the component, the world of the engine it imports, and
    what the browser holds for it: the object URLs not yet revoked and the
    downloads triggered. *)
Record State := {
  world : World;
  modelReady : bool;
  modelStatus : string;
  results : list ClassificationResult;
  dragOver : bool;
  totalProcessed : float;
  processed : nat;
  exports : nat;
  objectUrls : list string;
  downloads : list (string * list ExportRow);
}.

End App.

Definition initialState : App.State :=
  {| App.world := initialWorld; App.modelReady := false;
     App.modelStatus := "loading"; App.results := [];
     App.dragOver := false; App.totalProcessed := 0%float;
     App.processed := 0; App.exports := 0;
     App.objectUrls := []; App.downloads := [] |}.

Definition set_world (w : World) (s : App.State) : App.State :=
  {| App.world := w; App.modelReady := App.modelReady s;
     App.modelStatus := App.modelStatus s; App.results := App.results s;
     App.dragOver := App.dragOver s; App.totalProcessed := App.totalProcessed s;
     App.processed := App.processed s; App.exports := App.exports s;
     App.objectUrls := App.objectUrls s; App.downloads := App.downloads s |}.

Definition setModelReady (b : bool) (s : App.State) : App.State :=
  {| App.world := App.world s; App.modelReady := b;
     App.modelStatus := App.modelStatus s; App.results := App.results s;
     App.dragOver := App.dragOver s; App.totalProcessed := App.totalProcessed s;
     App.processed := App.processed s; App.exports := App.exports s;
     App.objectUrls := App.objectUrls s; App.downloads := App.downloads s |}.

Definition setModelStatus (status : string) (s : App.State) : App.State :=
  {| App.world := App.world s; App.modelReady := App.modelReady s;
     App.modelStatus := status; App.results := App.results s;
     App.dragOver := App.dragOver s; App.totalProcessed := App.totalProcessed s;
     App.processed := App.processed s; App.exports := App.exports s;
     App.objectUrls := App.objectUrls s; App.downloads := App.downloads s |}.

(** [setResults(prev => f(prev))]. *)
Definition setResults
    (f : list App.ClassificationResult -> list App.ClassificationResult)
    (s : App.State) : App.State :=
  {| App.world := App.world s; App.modelReady := App.modelReady s;
     App.modelStatus := App.modelStatus s; App.results := f (App.results s);
     App.dragOver := App.dragOver s; App.totalProcessed := App.totalProcessed s;
     App.processed := App.processed s; App.exports := App.exports s;
     App.objectUrls := App.objectUrls s; App.downloads := App.downloads s |}.

Definition setDragOver (b : bool) (s : App.State) : App.State :=
  {| App.world := App.world s; App.modelReady := App.modelReady s;
     App.modelStatus := App.modelStatus s; App.results := App.results s;
     App.dragOver := b; App.totalProcessed := App.totalProcessed s;
     App.processed := App.processed s; App.exports := App.exports s;
     App.objectUrls := App.objectUrls s; App.downloads := App.downloads s |}.

(** [setTotalProcessed(p => f(p))]. *)
Definition setTotalProcessed (f : float -> float) (s : App.State) : App.State :=
  {| App.world := App.world s; App.modelReady := App.modelReady s;
     App.modelStatus := App.modelStatus s; App.results := App.results s;
     App.dragOver := App.dragOver s;
     App.totalProcessed := f (App.totalProcessed s);
     App.processed := App.processed s; App.exports := App.exports s;
     App.objectUrls := App.objectUrls s; App.downloads := App.downloads s |}.

(** [URL.createObjectURL] as the [k]-th call of [processFile] makes it: the
    URL handed out is live from now on. *)
Definition createImageUrl (url : string) (s : App.State) : App.State :=
  {| App.world := App.world s; App.modelReady := App.modelReady s;
     App.modelStatus := App.modelStatus s; App.results := App.results s;
     App.dragOver := App.dragOver s; App.totalProcessed := App.totalProcessed s;
     App.processed := S (App.processed s); App.exports := App.exports s;
     App.objectUrls := App.objectUrls s ++ [url];
     App.downloads := App.downloads s |}.

(** [URL.revokeObjectURL(url)]. *)
Definition revokeObjectURL (url : string) (s : App.State) : App.State :=
  {| App.world := App.world s; App.modelReady := App.modelReady s;
     App.modelStatus := App.modelStatus s; App.results := App.results s;
     App.dragOver := App.dragOver s; App.totalProcessed := App.totalProcessed s;
     App.processed := App.processed s; App.exports := App.exports s;
     App.objectUrls :=
       List.filter (fun u => negb (u =? url)%string) (App.objectUrls s);
     App.downloads := App.downloads s |}.

(** The blob of an export: its URL is created, the anchor is clicked with
    [name] as download name, and the URL is revoked.  The download is
    recorded by its rows, which stand for their JSON text. *)
Definition download (url name : string) (data : list App.ExportRow)
    (s : App.State) : App.State :=
  revokeObjectURL url
    {| App.world := App.world s; App.modelReady := App.modelReady s;
       App.modelStatus := App.modelStatus s; App.results := App.results s;
       App.dragOver := App.dragOver s;
       App.totalProcessed := App.totalProcessed s;
       App.processed := App.processed s; App.exports := S (App.exports s);
       App.objectUrls := App.objectUrls s ++ [url];
       App.downloads := App.downloads s ++ [(name, data)] |}.

Definition isCompleted (r : App.ClassificationResult) : bool :=
  match App.status r with
  | App.StatusCompleted => true
  | _ => false
  end.

(** [{ ...r, status: 'error', error: message }]. *)
Definition withError (message : string) (r : App.ClassificationResult)
  : App.ClassificationResult :=
  {| App.id := App.id r; App.filename := App.filename r;
     App.imageUrl := App.imageUrl r; App.isMeme := App.isMeme r;
     App.confidence := App.confidence r;
     App.inferenceTimeMs := App.inferenceTimeMs r;
     App.status := App.StatusError; App.error := Some message;
     App.timestamp := App.timestamp r |}.

(** [{ ...r, isMeme, confidence, inferenceTimeMs, status: 'completed' }]. *)
Definition withClassification (result : ClassificationResult)
    (processingTime : float) (r : App.ClassificationResult)
  : App.ClassificationResult :=
  {| App.id := App.id r; App.filename := App.filename r;
     App.imageUrl := App.imageUrl r; App.isMeme := isMeme result;
     App.confidence := confidence result;
     App.inferenceTimeMs := processingTime;
     App.status := App.StatusCompleted; App.error := App.error r;
     App.timestamp := App.timestamp r |}.

(** [prev.map(r => r.id === resultId ? f(r) : r)]. *)
Definition updateById (resultId : string)
    (f : App.ClassificationResult -> App.ClassificationResult)
    (prev : list App.ClassificationResult) : list App.ClassificationResult :=
  map (fun r => if (App.id r =? resultId)%string then f r else r) prev.

(** The [memeCount] memo. *)
Definition memeCount (results : list App.ClassificationResult) : nat :=
  length (List.filter (fun r => isCompleted r && App.isMeme r) results).

Definition getStatusMessage (modelStatus : string) : string :=
  if (modelStatus =? "ready")%string then "online"
  else if (modelStatus =? "downloading")%string then "initializing"
  else if (modelStatus =? "loading")%string then "booting"
  else if (modelStatus =? "error")%string then "offline"
  else "unknown".

Definition getResultLabel (result : App.ClassificationResult) : string :=
  if isCompleted result
  then (if App.isMeme result then "certified meme" else "regular image")
  else "".

Section Component.

Variable rt : App.Runtime.

Definition initializeModel (s : App.State) : App.State :=
  let s1 := setModelStatus "downloading" s in
  match loadModel (App.engine rt) (App.world s1) with
  | (Normal _, w) => setModelStatus "ready" (setModelReady true (set_world w s1))
  | (Throw _, w) => setModelStatus "error" (setModelReady false (set_world w s1))
  | (Unsettled, w) => set_world w s1
  end.

(** [processFile] up to its [await]. *)
Definition processFile_begin (file : App.File) (s : App.State)
  : option App.InFlight * App.State :=
  let resultId := App.resultIdAt rt (App.processed s) in
  let imageUrl := App.objectUrlAt rt (App.processed s) in
  let loadingResult :=
    {| App.id := resultId; App.filename := App.name file;
       App.imageUrl := imageUrl; App.isMeme := false;
       App.confidence := 0%float; App.inferenceTimeMs := 0%float;
       App.status := App.StatusLoading; App.error := None;
       App.timestamp := App.timestampAt rt (App.processed s) |} in
  let s1 := createImageUrl imageUrl s in
  let s2 := setResults (fun prev => loadingResult :: prev) s1 in
  let s3 := setTotalProcessed (fun p => (p + 1)%float) s2 in
  match fst (isModelReady (App.world s3)) with
  | Normal true =>
      let startTime :=
        performance_now (App.engine rt) (clockReads (App.world s3)) in
      let '(p, w) := classifyImage (App.engine rt) imageUrl (tick (App.world s3)) in
      (Some {| App.resultId := resultId; App.startTime := startTime;
               App.promise := p |},
       set_world w s3)
  | _ =>
      (None,
       setResults (updateById resultId (withError "neural network not initialized"))
                  s3)
  end.

(** [processFile] from its [await] on: the rest of the [try] block, and the
    [catch] block. *)
Definition processFile_resume (p : App.InFlight) (s : App.State) : App.State :=
  let settle :=
    match App.promise p with
    | Settled c => fun w => (c, w)
    | Pending reply resume => resume reply
    end in
  match settle (App.world s) with
  | (Normal result, w) =>
      let processingTime :=
        (performance_now (App.engine rt) (clockReads w) - App.startTime p)%float in
      setResults (updateById (App.resultId p)
                    (withClassification result processingTime))
                 (set_world (tick w) s)
  | (Throw e, w) =>
      setResults (updateById (App.resultId p) (withError (message e)))
                 (set_world w s)
  | (Unsettled, w) => set_world w s
  end.

(** [await processFile(file)] with nothing else running in between. *)
Definition processFile (file : App.File) (s : App.State) : App.State :=
  match processFile_begin file s with
  | (Some p, s') => processFile_resume p s'
  | (None, s') => s'
  end.

(** [files.forEach(file => ...)]: the calls of [processFile] are started
    one after the other and none is awaited. *)
Fixpoint forEachFile (files : list App.File) (s : App.State)
  : list App.InFlight * App.State :=
  match files with
  | [] => ([], s)
  | file :: rest =>
      if String.prefix "image/" (App.type file)
      then
        let '(p, s1) := processFile_begin file s in
        let '(ps, s2) := forEachFile rest s1 in
        (match p with Some p => p :: ps | None => ps end, s2)
      else forEachFile rest s
  end.

(** [files] is [None] for [null] or [undefined]. *)
Definition handleFileSelect (files : option (list App.File)) (s : App.State)
  : list App.InFlight * App.State :=
  match files with
  | None => ([], s)
  | Some files =>
      if (length files =? 0)%nat then ([], s) else forEachFile files s
  end.

Definition handleDrop (files : option (list App.File)) (s : App.State)
  : list App.InFlight * App.State :=
  handleFileSelect files (setDragOver false s).

Definition handleDragOver (s : App.State) : App.State := setDragOver true s.

Definition handleDragLeave (s : App.State) : App.State := setDragOver false s.

Definition clearResults (s : App.State) : App.State :=
  setResults (fun _ => [])
    (fold_left (fun s r => revokeObjectURL (App.imageUrl r) s) (App.results s) s).

(** The [data] of [exportResults]. *)
Definition exportData (results : list App.ClassificationResult)
  : list App.ExportRow :=
  map (fun r =>
         {| App.row_filename := App.filename r;
            App.row_isMeme := App.isMeme r;
            App.row_confidence := App.confidence r;
            App.row_timestamp := App.toISOString rt (App.timestamp r) |})
      (List.filter isCompleted results).

Definition exportResults (s : App.State) : App.State :=
  download (App.exportUrlAt rt (App.exports s))
           (App.exportNameAt rt (App.exports s))
           (exportData (App.results s)) s.

(** ** The component at run time: its state and the calls of [processFile]
    still waiting for their inference. *)

Record System := {
  state : App.State;
  inFlight : list App.InFlight;
}.

Inductive Event :=
| Mount
| Select (files : option (list App.File))
| Drop (files : option (list App.File))
| DragOver
| DragLeave
| Completed (i : nat)
| ClearAll
| Export.

(** [Completed i]: the inference awaited by the [i]-th suspended call
    settles and the call runs to its end. *)
Definition react (e : Event) (sys : System) : System :=
  match e with
  | Mount => {| state := initializeModel (state sys); inFlight := inFlight sys |}
  | Select files =>
      let '(ps, s) := handleFileSelect files (state sys) in
      {| state := s; inFlight := inFlight sys ++ ps |}
  | Drop files =>
      let '(ps, s) := handleDrop files (state sys) in
      {| state := s; inFlight := inFlight sys ++ ps |}
  | DragOver => {| state := handleDragOver (state sys); inFlight := inFlight sys |}
  | DragLeave => {| state := handleDragLeave (state sys); inFlight := inFlight sys |}
  | Completed i =>
      match inFlight sys !! i with
      | Some p => {| state := processFile_resume p (state sys);
                     inFlight := delete i (inFlight sys) |}
      | None => sys
      end
  | ClearAll => {| state := clearResults (state sys); inFlight := inFlight sys |}
  | Export => {| state := exportResults (state sys); inFlight := inFlight sys |}
  end.

Inductive Running : System -> Prop :=
| Running_start : Running {| state := initialState; inFlight := [] |}
| Running_react (e : Event) (sys : System) :
    Running sys -> Running (react e sys).

End Component.

(** A browser for the samples: the [k]-th card has the [k]-th capital
    letter as id and "blob:" with that letter as URL. *)
Definition letter (k : nat) : string := String (ascii_of_nat (65 + k)) "".

Definition sampleRuntime (env : Env) : App.Runtime :=
  {| App.engine := env;
     App.resultIdAt := letter;
     App.objectUrlAt := fun k => ("blob:" ++ letter k)%string;
     App.timestampAt := fun k => PrimFloat.of_uint63 (Uint63.of_nat k);
     App.exportUrlAt := fun k => ("blob:export-" ++ letter k)%string;
     App.exportNameAt :=
       fun k => ("visagist_analysis_" ++ letter k ++ ".json")%string;
     App.toISOString := fun _ => "1970-01-01T00:00:00.000Z" |}.

Definition catPng : App.File :=
  {| App.name := "cat.png"; App.type := "image/png" |}.

Definition notesTxt : App.File :=
  {| App.name := "notes.txt"; App.type := "text/plain" |}.

Definition dogeGif : App.File :=
  {| App.name := "doge.gif"; App.type := "image/gif" |}.

(** ** What the component keeps true while it runs *)

(** The card [processFile] adds for its [k]-th call, before the model is
    asked. *)
Definition loadingCard (rt : App.Runtime) (file : App.File) (k : nat)
  : App.ClassificationResult :=
  {| App.id := App.resultIdAt rt k; App.filename := App.name file;
     App.imageUrl := App.objectUrlAt rt k; App.isMeme := false;
     App.confidence := 0%float; App.inferenceTimeMs := 0%float;
     App.status := App.StatusLoading; App.error := None;
     App.timestamp := App.timestampAt rt k |}.

(** A suspended call waits on a promise made by [classifyImage]. *)
Definition awaitsClassifyImage (rt : App.Runtime) (p : App.InFlight) : Prop :=
  exists reply startTimeMs,
    App.promise p =
    Pending reply (classifyImage_resume (App.engine rt) startTimeMs).

Definition engineReady (w : World) : Prop :=
  fst (isModelReady w) = Normal true.

Record Invariant (rt : App.Runtime) (s : App.State)
    (waiting : list App.InFlight) : Prop := {
  inv_waiting : forall p, In p waiting -> awaitsClassifyImage rt p;
  inv_ready : App.modelReady s = true <-> engineReady (App.world s);
  inv_status : App.modelStatus s = "ready" <-> App.modelReady s = true;
  inv_status_known :
    App.modelStatus s = "loading" \/ App.modelStatus s = "ready" \/
    App.modelStatus s = "error";
  inv_urls :
    forall u, In u (App.objectUrls s) ->
              In u (map App.imageUrl (App.results s));
  inv_loading :
    forall r, In r (App.results s) -> App.status r = App.StatusLoading ->
              exists p, In p waiting /\ App.resultId p = App.id r;
}.

(** The files [handleFileSelect] processes. *)
Definition imagesOf (files : option (list App.File)) : list App.File :=
  match files with
  | Some files => List.filter (fun f => String.prefix "image/" (App.type f)) files
  | None => []
  end.

(** The component just mounted on a browser where only the software
    backend works, and then given two images and a text file. *)
Definition startSystem : System := {| state := initialState; inFlight := [] |}.

Definition mountedSystem : System :=
  react (sampleRuntime wasmOnlyEnv) Mount startSystem.

Definition busySystem : System :=
  react (sampleRuntime wasmOnlyEnv)
    (Select (Some [catPng; notesTxt; dogeGif])) mountedSystem.

(** A suspended call whose promise was rejected, for card "A". *)
Definition rejectedCall : App.InFlight :=
  {| App.resultId := "A"; App.startTime := 0%float;
     App.promise := Settled (Throw (Error "rejected")) |}.

(** * Properties *)

(** ** Comparisons of binary64 values *)

Lemma SFcompare_key (x y : spec_float) :
  SFcompare x y =
  match SFkey x, SFkey y with
  | Some a, Some b => Some (lex3 a b)
  | _, _ => None
  end.
Proof.
  destruct x as [sx|sx| |sx mx ex], y as [sy|sy| |sy my ey];
    try destruct sx; try destruct sy; try reflexivity.
  cbn [SFcompare SFkey lex3]. replace (-1 ?= -1)%Z with Eq by reflexivity.
  rewrite Z.compare_opp, (Z.compare_antisym ex ey).
  destruct (ex ?= ey)%Z; reflexivity.
Qed.

Lemma lex3_refl (a : Z * Z * Z) : lex3 a a = Eq.
Proof.
  destruct a as [[a1 a2] a3]. unfold lex3. now rewrite !Z.compare_refl.
Qed.

Lemma lex3_spec (a b : Z * Z * Z) :
  CompareSpec (a = b) (lexlt a b) (lexlt b a) (lex3 a b).
Proof.
  destruct a as [[a1 a2] a3], b as [[b1 b2] b3]. unfold lex3, lexlt.
  destruct (Z.compare_spec a1 b1); [|constructor; lia..].
  destruct (Z.compare_spec a2 b2); [|constructor; lia..].
  destruct (Z.compare_spec a3 b3); constructor; try lia. congruence.
Qed.

Lemma ltb_key (x y : float) :
  PrimFloat.ltb x y =
  match fkey x, fkey y with
  | Some a, Some b => match lex3 a b with Lt => true | _ => false end
  | _, _ => false
  end.
Proof.
  rewrite FloatAxioms.ltb_spec. unfold SFltb, fkey. rewrite SFcompare_key.
  destruct (SFkey (Prim2SF x)), (SFkey (Prim2SF y)); reflexivity.
Qed.

Lemma leb_key (x y : float) :
  PrimFloat.leb x y =
  match fkey x, fkey y with
  | Some a, Some b => match lex3 a b with Gt => false | _ => true end
  | _, _ => false
  end.
Proof.
  rewrite FloatAxioms.leb_spec. unfold SFleb, fkey. rewrite SFcompare_key.
  destruct (SFkey (Prim2SF x)), (SFkey (Prim2SF y)); reflexivity.
Qed.

Lemma eqb_key (x y : float) :
  PrimFloat.eqb x y =
  match fkey x, fkey y with
  | Some a, Some b => match lex3 a b with Eq => true | _ => false end
  | _, _ => false
  end.
Proof.
  rewrite FloatAxioms.eqb_spec. unfold SFeqb, fkey. rewrite SFcompare_key.
  destruct (SFkey (Prim2SF x)), (SFkey (Prim2SF y)); reflexivity.
Qed.

Lemma is_nan_key (x : float) :
  PrimFloat.is_nan x = match fkey x with Some _ => false | None => true end.
Proof.
  unfold PrimFloat.is_nan. rewrite eqb_key.
  destruct (fkey x) as [a|]; [|reflexivity]. now rewrite lex3_refl.
Qed.

Lemma isNumber_key (x : float) : isNumber x -> exists a, fkey x = Some a.
Proof.
  unfold isNumber. rewrite is_nan_key. destruct (fkey x); [eauto|discriminate].
Qed.

Lemma or_zero_isNumber (x : float) : isNumber (Js.or_zero x).
Proof.
  unfold Js.or_zero, isNumber.
  destruct (PrimFloat.is_nan x) eqn:E; [reflexivity|].
  cbn [orb]. destruct (PrimFloat.is_zero x); [reflexivity|exact E].
Qed.

Lemma scoreOrZero_isNumber (found : option LabelScore) :
  isNumber (scoreOrZero found).
Proof.
  destruct found; [apply or_zero_isNumber|reflexivity].
Qed.

Lemma Math_max_cases (a b : float) :
  isNumber a -> isNumber b -> Js.Math_max a b = a \/ Js.Math_max a b = b.
Proof.
  unfold isNumber, Js.Math_max. intros -> ->. cbn [orb].
  destruct (PrimFloat.ltb a b); [now right|].
  destruct (PrimFloat.ltb b a); [now left|].
  destruct (PrimFloat.get_sign a); auto.
Qed.

Lemma Math_max_isNumber (a b : float) :
  isNumber a -> isNumber b -> isNumber (Js.Math_max a b).
Proof.
  intros Ha Hb. destruct (Math_max_cases a b Ha Hb) as [-> | ->]; assumption.
Qed.

(** Rewrites the comparisons of the goal and of the context into
    comparisons of keys. *)
Ltac float_keys :=
  unfold Js.ge, Js.gt, Js.lt,
    highConfidenceThreshold, lowConfidenceThreshold, smallMarginThreshold in *;
  rewrite ?ltb_key, ?leb_key, ?eqb_key in *.

(** Decides a goal about comparisons of keys by cases on each of them. *)
Ltac lex_cases :=
  repeat match goal with
    | H : context [lex3 ?a ?b] |- _ => destruct (lex3_spec a b)
    | |- context [lex3 ?a ?b] => destruct (lex3_spec a b)
    end;
  repeat match goal with
    | H : (_, _, _) = (_, _, _) |- _ => injection H as ? ? ?
    end;
  unfold lexlt in *;
  try reflexivity; try discriminate; try (exfalso; lia).

Lemma fkey_high : fkey 0.8%float = Some (1, -53, 7205759403792794)%Z.
Proof. vm_compute. reflexivity. Qed.

Lemma fkey_low : fkey 0.6%float = Some (1, -53, 5404319552844595)%Z.
Proof. vm_compute. reflexivity. Qed.

Lemma fkey_margin : fkey 0.3%float = Some (1, -54, 5404319552844595)%Z.
Proof. vm_compute. reflexivity. Qed.

(** ** The decision algorithm *)

(** Labels are matched without regard to case; a label with both words is
    the not-meme class. *)
Example label_matching :
  isMemeLabel {| label := Some "MEME"; score := 0.5 |} = true /\
  isMemeLabel {| label := Some "Not_Meme"; score := 0.5 |} = false /\
  isNotMemeLabel {| label := Some "Not_Meme"; score := 0.5 |} = true /\
  isNotMemeLabel {| label := Some "not meme"; score := 0.5 |} = true /\
  isNotMemeLabel {| label := Some "meme"; score := 0.5 |} = false /\
  isMemeLabel {| label := None; score := 0.5 |} = false /\
  isNotMemeLabel {| label := None; score := 0.5 |} = false.
Proof. repeat split; reflexivity. Qed.

(** The five scenarios of the documentation of [determineMemeClassification]. *)
Example documented_scenarios :
  determineMemeClassification (twoClass 0.63 0.37) =
    {| Decision.isMeme := true; Decision.confidence := 0.63 |} /\
  determineMemeClassification (twoClass 0.08 0.92) =
    {| Decision.isMeme := false; Decision.confidence := 0.08 |} /\
  determineMemeClassification (twoClass 0.82 0.18) =
    {| Decision.isMeme := true; Decision.confidence := 0.82 |} /\
  determineMemeClassification (twoClass 0.45 0.55) =
    {| Decision.isMeme := true; Decision.confidence := 0.45 |} /\
  determineMemeClassification (twoClass 0.25 0.75) =
    {| Decision.isMeme := false; Decision.confidence := 0.25 |}.
Proof. repeat split; reflexivity. Qed.

(** The margin is the rounded difference of the scores: 0.7 - 0.4 falls
    just below the threshold 0.3, while 0.6 - 0.3 meets it. *)
Example margin_is_rounded :
  Js.lt (Js.Math_abs (0.4 - 0.7)%float) 0.3%float = true /\
  PrimFloat.eqb (Js.Math_abs (0.3 - 0.6)%float) 0.3%float = true.
Proof. split; reflexivity. Qed.

Lemma determineMemeClassification_isMeme (results : list LabelScore) :
  Decision.isMeme (determineMemeClassification results) =
  decisionRule (scoreOrZero (List.find isMemeLabel results))
               (scoreOrZero (List.find isNotMemeLabel results)).
Proof.
  unfold determineMemeClassification, decisionRule, confidenceBand,
    highConfidenceThreshold, lowConfidenceThreshold, smallMarginThreshold.
  cbn [Decision.isMeme].
  destruct (Js.ge _ _); [reflexivity|]. destruct (Js.lt _ _); reflexivity.
Qed.

Lemma band_exclusive (w : float) :
  isNumber w ->
  Js.ge w 0.8%float && Js.lt w 0.6%float = false /\
  (Js.ge w 0.8%float || Js.lt w 0.6%float) =
    negb (Js.ge w 0.6%float && Js.lt w 0.8%float).
Proof.
  intros [[[a1 a2] a3] Ha]%isNumber_key. float_keys.
  rewrite Ha, fkey_high, fkey_low. split; lex_cases.
Qed.

Lemma band_at_high (w : float) :
  PrimFloat.eqb w 0.8%float = true -> confidenceBand w = HighConfidence.
Proof.
  unfold confidenceBand. float_keys. rewrite fkey_high.
  destruct (fkey w) as [[[a1 a2] a3]|]; [|discriminate].
  intros H. lex_cases.
Qed.

Lemma band_at_low (w : float) :
  PrimFloat.eqb w 0.6%float = true -> confidenceBand w = MediumConfidence.
Proof.
  unfold confidenceBand. float_keys. rewrite fkey_high, fkey_low.
  destruct (fkey w) as [[[a1 a2] a3]|]; [|discriminate].
  intros H. lex_cases.
Qed.

Lemma band_medium (w : float) :
  Js.ge w 0.6%float = true -> Js.lt w 0.8%float = true ->
  confidenceBand w = MediumConfidence.
Proof.
  unfold confidenceBand. float_keys. rewrite fkey_high, fkey_low.
  destruct (fkey w) as [[[a1 a2] a3]|]; [|discriminate].
  intros Hge Hlt. lex_cases.
Qed.

Lemma margin_at_threshold (x : float) :
  PrimFloat.eqb x 0.3%float = true -> Js.lt x 0.3%float = false.
Proof.
  float_keys. rewrite fkey_margin.
  destruct (fkey x) as [[[a1 a2] a3]|]; [|discriminate].
  intros H. lex_cases.
Qed.

Lemma Math_max_lt (a b : float) :
  PrimFloat.ltb a b = true -> Js.Math_max a b = b.
Proof.
  intros H. unfold Js.Math_max. rewrite H.
  rewrite ltb_key in H. rewrite !is_nan_key.
  destruct (fkey a), (fkey b); try discriminate. reflexivity.
Qed.

(** C1: for all resolved scores, those in [0,1] among them, the decision is
    the three-branch rule, taken in order: winner >= 0.8 trusts the winner;
    otherwise winner < 0.6 gives meme; otherwise a margin below 0.3 gives meme
    and a larger one trusts the winner.  The first two branches exclude each
    other, and the third is taken exactly when 0.6 <= winner < 0.8. *)
Theorem decision_three_branch_rule (results : list LabelScore) :
  let memeScore := scoreOrZero (List.find isMemeLabel results) in
  let notMemeScore := scoreOrZero (List.find isNotMemeLabel results) in
  let winner := Js.Math_max memeScore notMemeScore in
  let margin := Js.Math_abs (memeScore - notMemeScore)%float in
  Decision.isMeme (determineMemeClassification results) =
    (if Js.ge winner 0.8%float then Js.gt memeScore notMemeScore
     else if Js.lt winner 0.6%float then true
     else if Js.lt margin 0.3%float then true
     else Js.gt memeScore notMemeScore) /\
  Decision.isMeme (determineMemeClassification results) =
    decisionRule memeScore notMemeScore /\
  Js.ge winner 0.8%float && Js.lt winner 0.6%float = false /\
  negb (Js.ge winner 0.8%float) && negb (Js.lt winner 0.6%float) =
    Js.ge winner 0.6%float && Js.lt winner 0.8%float.
Proof.
  intros memeScore notMemeScore winner margin.
  split; [reflexivity|]. split; [apply determineMemeClassification_isMeme|].
  destruct (band_exclusive winner) as [Hexcl Hband].
  { apply Math_max_isNumber; apply scoreOrZero_isNumber. }
  split; [exact Hexcl|].
  rewrite <- negb_orb, Hband. apply negb_involutive.
Qed.

(** C2: the confidence returned is the resolved meme score, whatever branch
    fired; when the not-meme class wins, it is strictly below the winning
    score. *)
Theorem confidence_is_meme_score (results : list LabelScore) :
  let memeScore := scoreOrZero (List.find isMemeLabel results) in
  let notMemeScore := scoreOrZero (List.find isNotMemeLabel results) in
  let d := determineMemeClassification results in
  Decision.confidence d = memeScore /\
  (Js.gt notMemeScore memeScore = true ->
   Js.Math_max memeScore notMemeScore = notMemeScore /\
   Js.lt (Decision.confidence d) (Js.Math_max memeScore notMemeScore) = true).
Proof.
  intros memeScore notMemeScore d. split; [reflexivity|].
  unfold Js.gt, Js.lt. intros H. rewrite (Math_max_lt _ _ H).
  split; [reflexivity|exact H].
Qed.

Lemma confidence_is_meme_score_witness :
  Js.gt 0.92%float 0.08%float = true /\
  Decision.confidence (determineMemeClassification (twoClass 0.08 0.92)) = 0.08%float /\
  Js.lt (Decision.confidence (determineMemeClassification (twoClass 0.08 0.92)))
        0.92%float = true.
Proof.
  destruct (confidence_is_meme_score (twoClass 0.08 0.92)) as [Hc Hw].
  split; [reflexivity|]. split; [exact Hc|].
  destruct (Hw eq_refl) as [_ Hlt]. exact Hlt.
Defined.

(** C5: a winner equal to 0.8 is in the high band and the winner is trusted;
    a winner equal to 0.6 is in the medium band, decided by the margin; a
    margin equal to 0.3 in the medium band (0.6 <= winner < 0.8) trusts the
    winner. *)
Theorem threshold_boundaries (results : list LabelScore) :
  let memeScore := scoreOrZero (List.find isMemeLabel results) in
  let notMemeScore := scoreOrZero (List.find isNotMemeLabel results) in
  let winner := Js.Math_max memeScore notMemeScore in
  let margin := Js.Math_abs (memeScore - notMemeScore)%float in
  let d := determineMemeClassification results in
  (PrimFloat.eqb winner 0.8%float = true ->
   confidenceBand winner = HighConfidence /\
   Decision.isMeme d = Js.gt memeScore notMemeScore) /\
  (PrimFloat.eqb winner 0.6%float = true ->
   confidenceBand winner = MediumConfidence /\
   Decision.isMeme d =
     if Js.lt margin 0.3%float then true else Js.gt memeScore notMemeScore) /\
  (Js.ge winner 0.6%float = true -> Js.lt winner 0.8%float = true ->
   PrimFloat.eqb margin 0.3%float = true ->
   Decision.isMeme d = Js.gt memeScore notMemeScore).
Proof.
  intros memeScore notMemeScore winner margin d. subst d.
  rewrite determineMemeClassification_isMeme.
  fold memeScore notMemeScore. unfold decisionRule. fold winner margin.
  split; [|split].
  - intros H. split; [now apply band_at_high|]. now rewrite (band_at_high _ H).
  - intros H. split; [now apply band_at_low|]. now rewrite (band_at_low _ H).
  - intros Hge Hlt Hmargin.
    now rewrite (band_medium _ Hge Hlt), (margin_at_threshold _ Hmargin).
Qed.

Lemma threshold_boundaries_witness :
  Decision.isMeme (determineMemeClassification (twoClass 0.6 0.8)) = false /\
  Decision.isMeme (determineMemeClassification (twoClass 0.1 0.6)) = false /\
  Decision.isMeme (determineMemeClassification (twoClass 0.3 0.6)) = false.
Proof.
  split; [|split].
  - destruct (threshold_boundaries (twoClass 0.6 0.8)) as [H _].
    destruct (H eq_refl) as [_ ->]. reflexivity.
  - destruct (threshold_boundaries (twoClass 0.1 0.6)) as [_ [H _]].
    destruct (H eq_refl) as [_ ->]. reflexivity.
  - destruct (threshold_boundaries (twoClass 0.3 0.6)) as [_ [_ H]].
    rewrite (H eq_refl eq_refl eq_refl). reflexivity.
Defined.

(** ** The model lifecycle *)

Lemma loadModel_loaded (env : Env) (w : World) (handle : ImageClassificationPipeline) :
  classifier w = Some handle ->
  loadModel env w = (Normal tt, set_modelStatus ready w).
Proof.
  intros H. unfold loadModel, bind, read. now rewrite H.
Qed.

Lemma loadModel_unloaded (env : Env) (w : World) :
  classifier w = None ->
  loadModel env w =
  let k := length (acquisitions w) in
  let w1 := record_acquisition webgpu (set_modelStatus downloading w) in
  match pipeline env k webgpu with
  | Fulfilled h => (Normal tt, set_modelStatus ready (set_classifier h w1))
  | Failed _ =>
      let w2 := record_acquisition wasm w1 in
      match pipeline env (S k) wasm with
      | Fulfilled h => (Normal tt, set_modelStatus ready (set_classifier h w2))
      | Failed _ => (Throw ModelLoadError, set_modelStatus error w2)
      end
  end.
Proof.
  intros H. unfold loadModel, bind, read, try_catch, modify, acquire, settled, ret, throw.
  rewrite H. cbv zeta.
  destruct (pipeline env _ webgpu); [reflexivity|].
  cbn [acquisitions set_modelStatus record_acquisition].
  rewrite length_app, Nat.add_1_r.
  destruct (pipeline env _ wasm); reflexivity.
Qed.

(** C7: with a handle in place [loadModel] returns at once: the status is
    [ready], no backend is acquired and the handle is the one stored. *)
Theorem loadModel_idempotent (env : Env) (w : World)
    (handle : ImageClassificationPipeline) :
  classifier w = Some handle ->
  exists w',
    loadModel env w = (Normal tt, w') /\
    modelStatus w' = ready /\
    classifier w' = Some handle /\
    acquisitions w' = acquisitions w /\
    inferences w' = inferences w /\
    clockReads w' = clockReads w.
Proof.
  intros H. exists (set_modelStatus ready w).
  rewrite (loadModel_loaded env w handle H). now repeat split.
Qed.

Lemma loadModel_idempotent_witness :
  classifier loadedWorld = Some sampleHandle /\
  exists w',
    loadModel wasmOnlyEnv loadedWorld = (Normal tt, w') /\
    modelStatus w' = ready /\
    classifier w' = Some sampleHandle /\
    acquisitions w' = [].
Proof.
  split; [reflexivity|].
  destruct (loadModel_idempotent wasmOnlyEnv loadedWorld sampleHandle eq_refl)
    as (w' & Hrun & Hstatus & Hhandle & Hacq & _).
  exists w'. repeat split; assumption.
Defined.

(** Scenario 6: a second [loadModel] after a successful one changes nothing. *)
Lemma loadModel_twice (env env' : Env) (w w1 : World) :
  loadModel env w = (Normal tt, w1) ->
  loadModel env' w1 = (Normal tt, w1) /\ modelStatus w1 = ready.
Proof.
  intros H. destruct (classifier w) as [h|] eqn:Hc.
  - rewrite (loadModel_loaded env w h Hc) in H. injection H as <-.
    split; [|reflexivity].
    now rewrite (loadModel_loaded env' _ h).
  - rewrite (loadModel_unloaded env w Hc) in H. cbv zeta in H.
    destruct (pipeline env _ webgpu) as [h|].
    + injection H as <-. split; [|reflexivity].
      now rewrite (loadModel_loaded env' _ h).
    + destruct (pipeline env _ wasm) as [h|]; [|discriminate].
      injection H as <-. split; [|reflexivity].
      now rewrite (loadModel_loaded env' _ h).
Qed.

(** C6: [loadModel] throws exactly when no handle is stored and both the
    accelerated and the software acquisition fail; the error is then the
    load error, whose message names the model, the status is [error] and
    the handle is still unset. *)
Theorem loadModel_fails_iff_both_backends_fail (env : Env) (w : World) :
  let k := length (acquisitions w) in
  ((exists e w', loadModel env w = (Throw e, w')) <->
   (classifier w = None /\
    (exists e1, pipeline env k webgpu = Failed e1) /\
    (exists e2, pipeline env (S k) wasm = Failed e2))) /\
  (forall e w', loadModel env w = (Throw e, w') ->
     e = ModelLoadError /\
     Js.includes (message e) HUGGINGFACE_MODEL = true /\
     modelStatus w' = error /\
     classifier w' = None /\
     acquisitions w' = acquisitions w ++ [webgpu; wasm]).
Proof.
  intros k. destruct (classifier w) as [h|] eqn:Hc.
  - rewrite (loadModel_loaded env w h Hc). split.
    + split; [intros (e & w' & [=])|intros ([=] & _)].
    + intros e w' [=].
  - rewrite (loadModel_unloaded env w Hc). cbv zeta. fold k.
    destruct (pipeline env k webgpu) as [h1|e1].
    { split; [split|];
        [intros (e & w' & [=])|intros (_ & (e1 & [=]) & _)|intros e w' [=]]. }
    destruct (pipeline env (S k) wasm) as [h2|e2].
    { split; [split|];
        [intros (e & w' & [=])|intros (_ & _ & (e2 & [=]))|intros e w' [=]]. }
    split.
    + split; [intros _; eauto 6|intros _; eauto].
    + intros e w' [= <- <-]. cbn. rewrite Hc, <- app_assoc. repeat split; reflexivity.
Qed.

Lemma loadModel_fails_iff_both_backends_fail_witness :
  exists e w',
    loadModel noBackendEnv initialWorld = (Throw e, w') /\
    e = ModelLoadError /\
    modelStatus w' = error /\
    classifier w' = None.
Proof.
  destruct (loadModel_fails_iff_both_backends_fail noBackendEnv initialWorld)
    as [[_ Hthrows] Hthen].
  destruct Hthrows as (e & w' & Hrun).
  { split; [reflexivity|]. split; eexists; reflexivity. }
  destruct (Hthen e w' Hrun) as (He & _ & Hstatus & Hhandle & _).
  exists e, w'. repeat split; assumption.
Defined.

(** ** Single classification *)

Lemma classifyImage_resume_spec (env : Env) (startTimeMs : float)
    (reply : Settlement RawOutput) (w : World) :
  classifyImage_resume env startTimeMs reply w =
  (Normal (classificationOf reply
             (performance_now env (clockReads w) - startTimeMs)%float),
   tick w).
Proof.
  unfold classifyImage_resume, try_catch, bind, settled, performanceNow, ret, throw.
  destruct reply as [[| |[|r rs]]|e]; reflexivity.
Qed.

Lemma classifyImage_loaded (env : Env) (imageUrl : string) (w : World)
    (handle : ImageClassificationPipeline) :
  classifier w = Some handle ->
  await (classifyImage env imageUrl) w =
  (Normal (classificationOf (infer handle (length (inferences w)) imageUrl)
             (performance_now env (S (clockReads w)) -
              performance_now env (clockReads w))%float),
   tick (record_inference imageUrl (tick w))).
Proof.
  intros H. unfold await, classifyImage. rewrite H.
  now rewrite classifyImage_resume_spec.
Qed.

Lemma classifyImage_unloaded (env : Env) (imageUrl : string) (w : World) :
  classifier w = None ->
  await (classifyImage env imageUrl) w = (Throw ModelNotLoadedError, w).
Proof.
  intros H. unfold await, classifyImage. now rewrite H.
Qed.

(** C3: [classifyImage] throws exactly when no handle is set, and then the
    not-loaded error; with a handle it returns a result carrying the measured
    time, and that result is the safe default when the inference throws or
    gives back something absent, not an array, or empty. *)
Theorem classifyImage_contract (env : Env) (imageUrl : string) (w : World) :
  ((exists e w', await (classifyImage env imageUrl) w = (Throw e, w')) <->
   classifier w = None) /\
  (classifier w = None ->
   await (classifyImage env imageUrl) w = (Throw ModelNotLoadedError, w)) /\
  (forall handle, classifier w = Some handle ->
     let reply := infer handle (length (inferences w)) imageUrl in
     let elapsed := (performance_now env (S (clockReads w)) -
                     performance_now env (clockReads w))%float in
     exists r w',
       await (classifyImage env imageUrl) w = (Normal r, w') /\
       inferenceTimeMs r = elapsed /\
       ((exists e, reply = Failed e) \/ reply = Fulfilled RawUndefined \/
        reply = Fulfilled RawNonArray \/ reply = Fulfilled (RawArray []) ->
        r = safeDefault elapsed)).
Proof.
  split; [|split].
  - destruct (classifier w) as [h|] eqn:Hc.
    + rewrite (classifyImage_loaded env imageUrl w h Hc).
      split; [intros (e & w' & [=])|intros [=]].
    + rewrite (classifyImage_unloaded env imageUrl w Hc). split; eauto.
  - apply classifyImage_unloaded.
  - intros handle Hc reply elapsed.
    rewrite (classifyImage_loaded env imageUrl w handle Hc). fold reply elapsed.
    eexists _, _. split; [reflexivity|]. split.
    + destruct reply as [[| |[|r rs]]|e]; reflexivity.
    + intros [[e ->]|[->|[->| ->]]]; reflexivity.
Qed.

Lemma classifyImage_contract_witness :
  (exists e w',
     await (classifyImage wasmOnlyEnv "a.png") initialWorld = (Throw e, w')) /\
  (exists r w',
     await (classifyImage wasmOnlyEnv "a.png")
       (set_classifier brokenHandle initialWorld) = (Normal r, w') /\
     r = safeDefault 1%float) /\
  (exists r w',
     await (classifyImage wasmOnlyEnv "a.png")
       (set_classifier emptyHandle initialWorld) = (Normal r, w') /\
     r = safeDefault 1%float).
Proof.
  split; [|split].
  - destruct (classifyImage_contract wasmOnlyEnv "a.png" initialWorld) as [[_ H] _].
    exact (H eq_refl).
  - destruct (classifyImage_contract wasmOnlyEnv "a.png"
                (set_classifier brokenHandle initialWorld)) as (_ & _ & H).
    destruct (H brokenHandle eq_refl) as (r & w' & Hrun & _ & Hsafe).
    exists r, w'. split; [exact Hrun|].
    apply Hsafe. left. eexists. reflexivity.
  - destruct (classifyImage_contract wasmOnlyEnv "a.png"
                (set_classifier emptyHandle initialWorld)) as (_ & _ & H).
    destruct (H emptyHandle eq_refl) as (r & w' & Hrun & _ & Hsafe).
    exists r, w'. split; [exact Hrun|].
    apply Hsafe. right. right. right. reflexivity.
Defined.

(** C9: a class without a matching label counts for 0.0, and the decision
    is made all the same: by the rule, on 0.0 for the missing class; and a
    loaded [classifyImage] returns it. *)
Theorem missing_label_scores_zero (results : list LabelScore) :
  let memeScore := scoreOrZero (List.find isMemeLabel results) in
  let notMemeScore := scoreOrZero (List.find isNotMemeLabel results) in
  let d := determineMemeClassification results in
  (List.find isMemeLabel results = None ->
   Decision.confidence d = 0%float /\
   Decision.isMeme d = decisionRule 0%float notMemeScore) /\
  (List.find isNotMemeLabel results = None ->
   Decision.confidence d = memeScore /\
   Decision.isMeme d = decisionRule memeScore 0%float) /\
  (forall env imageUrl w handle,
     classifier w = Some handle ->
     infer handle (length (inferences w)) imageUrl = Fulfilled (RawArray results) ->
     results <> [] ->
     exists t w',
       await (classifyImage env imageUrl) w =
       (Normal {| isMeme := Decision.isMeme d;
                  confidence := Decision.confidence d;
                  inferenceTimeMs := t |}, w')).
Proof.
  intros memeScore notMemeScore d. subst d.
  rewrite determineMemeClassification_isMeme. fold memeScore notMemeScore.
  split; [|split].
  - intros H. unfold determineMemeClassification. cbn [Decision.confidence].
    subst memeScore. rewrite H. split; reflexivity.
  - intros H. subst notMemeScore. rewrite H. split; reflexivity.
  - intros env imageUrl w handle Hc Hreply Hne.
    rewrite (classifyImage_loaded env imageUrl w handle Hc), Hreply.
    destruct results as [|r rs]; [contradiction|].
    eexists _, _. cbn [classificationOf].
    rewrite determineMemeClassification_isMeme. reflexivity.
Qed.

Lemma missing_label_scores_zero_witness :
  (Decision.confidence (determineMemeClassification onlyNotMeme) = 0%float /\
   Decision.isMeme (determineMemeClassification onlyNotMeme) = false) /\
  (Decision.confidence (determineMemeClassification onlyMeme) = 0.97%float /\
   Decision.isMeme (determineMemeClassification onlyMeme) = true).
Proof.
  split.
  - destruct (missing_label_scores_zero onlyNotMeme) as [H _].
    destruct (H eq_refl) as [-> ->]. split; reflexivity.
  - destruct (missing_label_scores_zero onlyMeme) as (_ & H & _).
    destruct (H eq_refl) as [-> ->]. split; reflexivity.
Defined.

(** ** Batch classification *)

Lemma advance_0 (w : World) : advance 0 w = w.
Proof. destruct w. unfold advance. cbn. now rewrite Nat.add_0_r. Qed.

Lemma advance_tick (k : nat) (w : World) : advance k (tick w) = advance (S k) w.
Proof. unfold advance, tick. cbn. f_equal. lia. Qed.

Lemma started_nil (w : World) : started [] w = w.
Proof.
  destruct w. unfold started. cbn. now rewrite app_nil_r, Nat.add_0_r.
Qed.

Lemma started_cons (url : string) (urls : list string) (w : World) :
  started urls (record_inference url (tick w)) = started (url :: urls) w.
Proof.
  unfold started, record_inference, tick. cbn. rewrite <- app_assoc. cbn.
  f_equal. lia.
Qed.

Lemma array_map_classifyImage (env : Env) (handle : ImageClassificationPipeline)
    (urls : list string) :
  forall w : World,
    classifier w = Some handle ->
    array_map (classifyImage env) urls w =
    (promisesFor env handle w urls, started urls w).
Proof.
  induction urls as [|url urls IH]; intros w Hc.
  - cbn. now rewrite started_nil.
  - cbn [array_map]. unfold classifyImage at 1. rewrite Hc. cbv zeta.
    rewrite (IH (record_inference url (tick w)) Hc), started_cons.
    unfold promisesFor. rewrite imap_cons. f_equal. f_equal.
    + f_equal; [cbn; f_equal; lia|]. f_equal. f_equal. lia.
    + apply imap_ext. intros i x _. cbn. rewrite length_app. cbn.
      f_equal; [f_equal; lia|]. f_equal. f_equal. lia.
Qed.

Lemma firstRejected_promisesFor (env : Env) (handle : ImageClassificationPipeline)
    (w : World) (urls : list string) :
  firstRejected (promisesFor env handle w urls) = None.
Proof.
  unfold promisesFor.
  assert (forall (f : nat -> string -> Promise ClassificationResult),
             (forall i x, exists r c, f i x = Pending r c) ->
             firstRejected (imap f urls) = None) as H.
  { induction urls as [|url urls IH]; intros f Hf; [reflexivity|].
    rewrite imap_cons. destruct (Hf 0 url) as (r & c & ->). cbn.
    apply IH. intros i x. apply Hf. }
  apply H. intros i x. eauto.
Qed.

Lemma collect_all {A} (slots : list (option A)) :
  (forall i x, slots !! i = Some x -> is_Some x) ->
  exists values, collect slots = Some values /\ slots = Some <$> values.
Proof.
  induction slots as [|[a|] slots IH]; intros H.
  - exists []. now split.
  - destruct IH as (values & Hc & Hs).
    { intros i x Hi. apply (H (S i) x Hi). }
    exists (a :: values). cbn. rewrite Hc. split; [reflexivity|]. now rewrite Hs.
  - destruct (H 0 None eq_refl) as [? [=]].
Qed.

Section Settle.

Variable env : Env.
Variable replyOf : nat -> Settlement RawOutput.
Variable startOf : nat -> float.
Variable promises : list (Promise ClassificationResult).

Hypothesis promises_pending :
  forall i, i < length promises ->
    promises !! i =
    Some (Pending (replyOf i) (classifyImage_resume env (startOf i))).

Lemma settleAll_spec (schedule : list nat) :
  forall (slots : list (option ClassificationResult)) (w : World),
    NoDup schedule ->
    (forall i, i ∈ schedule -> i < length promises /\ slots !! i = Some None) ->
    exists slots',
      settleAll promises schedule slots w =
        (Normal slots', advance (length schedule) w) /\
      length slots' = length slots /\
      (forall i, i ∉ schedule -> slots' !! i = slots !! i) /\
      (forall j i, schedule !! j = Some i ->
         slots' !! i =
         Some (Some (settledAt env replyOf startOf i (clockReads w + j)))).
Proof.
  induction schedule as [|i later IH]; intros slots w Hnd Hin.
  - exists slots. cbn. rewrite advance_0.
    split; [reflexivity|]. split; [reflexivity|]. split; [reflexivity|].
    intros j i [=].
  - apply NoDup_cons in Hnd as [Hi Hnd].
    destruct (Hin i) as [Hlt Hslot]; [left|].
    cbn [settleAll]. rewrite (promises_pending i Hlt), Hslot.
    unfold bind at 1. rewrite classifyImage_resume_spec.
    fold (settledAt env replyOf startOf i (clockReads w)).
    destruct (IH (<[i := Some (settledAt env replyOf startOf i (clockReads w))]> slots)
                (tick w) Hnd)
      as (slots' & Hrun & Hlen & Hout & Hres).
    { intros i' Hi'. destruct (Hin i') as [? ?]; [now right|].
      split; [assumption|]. rewrite list_lookup_insert_ne; [assumption|].
      intros ->. contradiction. }
    exists slots'. rewrite Hrun, advance_tick. split; [reflexivity|].
    split; [now rewrite Hlen, length_insert|]. split.
    + intros i' Hi'. apply not_elem_of_cons in Hi' as [Hne Hi'].
      rewrite (Hout i' Hi'). now apply list_lookup_insert_ne.
    + intros [|j] i' Hj.
      * injection Hj as <-. rewrite (Hout i Hi), Nat.add_0_r.
        apply list_lookup_insert_eq. eapply lookup_lt_Some, Hslot.
      * rewrite (Hres j i' Hj). cbn. do 3 f_equal. lia.
Qed.

End Settle.

Lemma map_fmap {A B} (f : A -> B) (l : list A) : map f l = f <$> l.
Proof. induction l as [|x l IH]; cbn; [reflexivity|now rewrite IH]. Qed.

Lemma promisesFor_lookup (env : Env) (handle : ImageClassificationPipeline)
    (w : World) (urls : list string) (i : nat) (url : string) :
  urls !! i = Some url ->
  promisesFor env handle w urls !! i =
  Some (Pending (infer handle (length (inferences w) + i) url)
                (classifyImage_resume env (performance_now env (clockReads w + i)))).
Proof.
  intros H. unfold promisesFor. now rewrite list_lookup_imap, H.
Qed.

(** The batch on a loaded model and a non-empty input, when every inference
    settles and [Promise.all] does its work. *)
Lemma classifyImageBatch_settled (env : Env) (schedule : list nat)
    (imageUrls : list string) (w : World) (handle : ImageClassificationPipeline) :
  classifier w = Some handle ->
  imageUrls <> [] ->
  promiseAllFault env = None ->
  schedule ≡ₚ seq 0 (length imageUrls) ->
  exists results,
    classifyImageBatch env schedule imageUrls w =
      (Normal results, advance (length imageUrls) (started imageUrls w)) /\
    length results = length imageUrls /\
    forall i url, imageUrls !! i = Some url ->
      exists j, schedule !! j = Some i /\
        results !! i =
        Some (classificationOf
                (infer handle (length (inferences w) + i) url)
                (performance_now env (clockReads w + length imageUrls + j) -
                 performance_now env (clockReads w + i))%float).
Proof.
  intros Hc Hne Hfault Hperm.
  set (n := length imageUrls).
  set (ps := promisesFor env handle w imageUrls).
  assert (length ps = n) as Hps by apply length_imap.
  pose (replyOf := fun i =>
          match imageUrls !! i with
          | Some url => infer handle (length (inferences w) + i) url
          | None => Fulfilled RawUndefined
          end).
  pose (startOf := fun i => performance_now env (clockReads w + i)).
  assert (forall i, i < length ps ->
            ps !! i = Some (Pending (replyOf i) (classifyImage_resume env (startOf i))))
    as Hpending.
  { intros i Hi. rewrite Hps in Hi.
    destruct (lookup_lt_is_Some_2 imageUrls i Hi) as [url Hurl].
    unfold ps, replyOf. rewrite Hurl. now apply promisesFor_lookup. }
  assert (NoDup schedule) as Hnd by (rewrite Hperm; apply NoDup_seq).
  assert (forall i, i ∈ schedule <-> i < n) as Hmem.
  { intros i. rewrite Hperm, elem_of_seq. lia. }
  destruct (settleAll_spec env replyOf startOf ps Hpending schedule
              (map initialSlot ps) (started imageUrls w) Hnd)
    as (slots & Hrun & Hlen & _ & Hres).
  { intros i Hi%Hmem. rewrite Hps. split; [assumption|].
    rewrite map_fmap, list_lookup_fmap, Hpending by now rewrite Hps.
    reflexivity. }
  destruct (collect_all slots) as (results & Hcollect & Hslots).
  { intros i x Hi. assert (i < n) as Hlt.
    { apply lookup_lt_Some in Hi. rewrite Hlen, map_fmap, length_fmap, Hps in Hi.
      exact Hi. }
    apply Hmem, list_elem_of_lookup in Hlt as [j Hj].
    rewrite (Hres j i Hj) in Hi. injection Hi as <-. eauto. }
  exists results. split; [|split].
  - unfold classifyImageBatch, bind at 1, read. rewrite Hc.
    destruct imageUrls as [|u us]; [contradiction|].
    change (length (u :: us) =? 0)%nat with false. cbv iota.
    unfold try_catch, bind at 1.
    rewrite (array_map_classifyImage env handle (u :: us) w Hc).
    fold ps. unfold bind at 1, Promise_all. rewrite Hfault.
    unfold ps at 1. rewrite firstRejected_promisesFor. fold ps.
    unfold bind at 1. rewrite Hrun, Hcollect. unfold ret.
    rewrite (Permutation_length Hperm), length_seq. reflexivity.
  - apply (f_equal length) in Hslots.
    rewrite length_fmap, Hlen, map_fmap, length_fmap, Hps in Hslots. now symmetry.
  - intros i url Hurl.
    assert (i < n) as Hlt by (eapply lookup_lt_Some, Hurl).
    apply Hmem, list_elem_of_lookup in Hlt as [j Hj].
    exists j. split; [exact Hj|].
    pose proof (Hres j i Hj) as Hi. rewrite Hslots, list_lookup_fmap in Hi.
    destruct (results !! i) as [r|]; [|discriminate].
    injection Hi as ->. unfold settledAt, replyOf, startOf. rewrite Hurl.
    reflexivity.
Qed.

Lemma classificationOf_decision (reply : Settlement RawOutput) (t t' : float) :
  isMeme (classificationOf reply t) = isMeme (classificationOf reply t') /\
  confidence (classificationOf reply t) = confidence (classificationOf reply t').
Proof.
  destruct reply as [[| |[|r rs]]|e]; split; reflexivity.
Qed.

(** Two orders of completion give the same decisions at every index; only the
    measured times may differ. *)
Lemma classifyImageBatch_any_order (env : Env) (schedule schedule' : list nat)
    (imageUrls : list string) (w : World) (handle : ImageClassificationPipeline) :
  classifier w = Some handle ->
  imageUrls <> [] ->
  promiseAllFault env = None ->
  schedule ≡ₚ seq 0 (length imageUrls) ->
  schedule' ≡ₚ seq 0 (length imageUrls) ->
  exists results results' w',
    classifyImageBatch env schedule imageUrls w = (Normal results, w') /\
    classifyImageBatch env schedule' imageUrls w = (Normal results', w') /\
    isMeme <$> results = isMeme <$> results' /\
    confidence <$> results = confidence <$> results'.
Proof.
  intros Hc Hne Hfault Hperm Hperm'.
  destruct (classifyImageBatch_settled env schedule imageUrls w handle
              Hc Hne Hfault Hperm) as (results & Hrun & Hlen & Hres).
  destruct (classifyImageBatch_settled env schedule' imageUrls w handle
              Hc Hne Hfault Hperm') as (results' & Hrun' & Hlen' & Hres').
  exists results, results', (advance (length imageUrls) (started imageUrls w)).
  split; [exact Hrun|]. split; [exact Hrun'|].
  split; apply list_eq; intros i; rewrite !list_lookup_fmap;
    (destruct (imageUrls !! i) as [url|] eqn:Hurl;
     [ destruct (Hres i url Hurl) as (j & _ & ->);
       destruct (Hres' i url Hurl) as (j' & _ & ->); cbn; f_equal;
       apply classificationOf_decision
     | apply lookup_ge_None in Hurl;
       rewrite (proj2 (lookup_ge_None results i)) by lia;
       rewrite (proj2 (lookup_ge_None results' i)) by lia; reflexivity ]).
Qed.

(** C4: on a loaded model and a non-empty input, whatever the order in which
    the inferences complete, the batch returns one result per input, at the
    input's index: the classification of that input's own inference, timed
    from its own start to its own completion.  If [Promise.all] itself fails,
    the batch returns one safe default per input. *)
Theorem classifyImageBatch_order (env : Env) (schedule : list nat)
    (imageUrls : list string) (w : World) (handle : ImageClassificationPipeline) :
  classifier w = Some handle ->
  imageUrls <> [] ->
  (promiseAllFault env = None ->
   schedule ≡ₚ seq 0 (length imageUrls) ->
   exists results w',
     classifyImageBatch env schedule imageUrls w = (Normal results, w') /\
     length results = length imageUrls /\
     inferences w' = inferences w ++ imageUrls /\
     forall i url, imageUrls !! i = Some url ->
       exists j, schedule !! j = Some i /\
         results !! i =
         Some (classificationOf
                 (infer handle (length (inferences w) + i) url)
                 (performance_now env (clockReads w + length imageUrls + j) -
                  performance_now env (clockReads w + i))%float)) /\
  (forall e, promiseAllFault env = Some e ->
   exists results w',
     classifyImageBatch env schedule imageUrls w = (Normal results, w') /\
     length results = length imageUrls /\
     forall i url, imageUrls !! i = Some url ->
       results !! i = Some (safeDefault 0%float)).
Proof.
  intros Hc Hne. split.
  - intros Hfault Hperm.
    destruct (classifyImageBatch_settled env schedule imageUrls w handle
                Hc Hne Hfault Hperm) as (results & Hrun & Hlen & Hres).
    exists results, (advance (length imageUrls) (started imageUrls w)).
    repeat split; assumption.
  - intros e Hfault.
    exists (map (fun _ => safeDefault 0%float) imageUrls),
           (started imageUrls w).
    split; [|split].
    + unfold classifyImageBatch, bind at 1, read. rewrite Hc.
      destruct imageUrls as [|u us]; [contradiction|].
      change (length (u :: us) =? 0)%nat with false. cbv iota.
      unfold try_catch, bind at 1.
      rewrite (array_map_classifyImage env handle (u :: us) w Hc).
      unfold bind at 1, Promise_all. rewrite Hfault. reflexivity.
    + apply length_map.
    + intros i url Hurl. now rewrite map_fmap, list_lookup_fmap, Hurl.
Qed.

Lemma classifyImageBatch_order_witness :
  (exists results w',
     classifyImageBatch wasmOnlyEnv [1; 0] ["cat.png"; "doge.png"] pickyWorld =
       (Normal results, w') /\
     length results = 2 /\
     isMeme <$> results !! 0 = Some false /\
     isMeme <$> results !! 1 = Some true) /\
  (exists results w',
     classifyImageBatch faultyWaitEnv [1; 0] ["cat.png"; "doge.png"] pickyWorld =
       (Normal results, w') /\
     results !! 0 = Some (safeDefault 0%float) /\
     results !! 1 = Some (safeDefault 0%float)).
Proof.
  split.
  - destruct (classifyImageBatch_order wasmOnlyEnv [1; 0] ["cat.png"; "doge.png"]
                pickyWorld pickyHandle eq_refl) as [H _]; [discriminate|].
    destruct (H eq_refl (perm_swap 0 1 [])) as (results & w' & Hrun & Hlen & _ & Hres).
    exists results, w'. split; [exact Hrun|]. split; [exact Hlen|]. split.
    + destruct (Hres 0 "cat.png" eq_refl) as (j & _ & ->). reflexivity.
    + destruct (Hres 1 "doge.png" eq_refl) as (j & _ & ->). reflexivity.
  - destruct (classifyImageBatch_order faultyWaitEnv [1; 0] ["cat.png"; "doge.png"]
                pickyWorld pickyHandle eq_refl) as [_ H]; [discriminate|].
    destruct (H _ eq_refl) as (results & w' & Hrun & _ & Hres).
    exists results, w'. split; [exact Hrun|]. split.
    + exact (Hres 0 "cat.png" eq_refl).
    + exact (Hres 1 "doge.png" eq_refl).
Defined.

(** C8, as the program has it: on a loaded model the empty batch returns the
    empty array and leaves the world as it was: no inference call, no clock
    reading. *)
Theorem classifyImageBatch_empty (env : Env) (schedule : list nat) (w : World)
    (handle : ImageClassificationPipeline) :
  classifier w = Some handle ->
  classifyImageBatch env schedule [] w = (Normal [], w) /\
  inferences (snd (classifyImageBatch env schedule [] w)) = inferences w.
Proof.
  intros Hc. unfold classifyImageBatch, bind, read. rewrite Hc. now split.
Qed.

Lemma classifyImageBatch_empty_witness :
  classifier loadedWorld = Some sampleHandle /\
  classifyImageBatch wasmOnlyEnv [] [] loadedWorld = (Normal [], loadedWorld).
Proof.
  split; [reflexivity|].
  exact (proj1 (classifyImageBatch_empty wasmOnlyEnv [] loadedWorld sampleHandle
                  eq_refl)).
Defined.

(** C8 as stated fails: before any model is loaded the empty batch does not
    return the empty array. *)
Lemma classifyImageBatch_empty_not_unconditional :
  ~ exists w', classifyImageBatch wasmOnlyEnv [] [] initialWorld = (Normal [], w').
Proof.
  intros (w' & H). discriminate H.
Qed.

(** C10: the guard on the handle comes before the test for the empty input:
    with no handle, the empty batch throws the not-loaded error. *)
Theorem classifyImageBatch_guard_first (env : Env) (schedule : list nat)
    (imageUrls : list string) (w : World) :
  classifier w = None ->
  classifyImageBatch env schedule [] w = (Throw ModelNotLoadedError, w) /\
  classifyImageBatch env schedule imageUrls w = (Throw ModelNotLoadedError, w).
Proof.
  intros Hc. unfold classifyImageBatch, bind, read, throw. rewrite Hc. now split.
Qed.

Lemma classifyImageBatch_guard_first_witness :
  classifier initialWorld = None /\
  classifyImageBatch wasmOnlyEnv [] [] initialWorld =
    (Throw ModelNotLoadedError, initialWorld).
Proof.
  split; [reflexivity|].
  exact (proj1 (classifyImageBatch_guard_first wasmOnlyEnv [] [] initialWorld eq_refl)).
Defined.

(** * Further properties of the engine *)

(** ** Labels *)

Lemma includes_unfold (s needle : string) :
  Js.includes s needle =
  String.prefix needle s ||
  match s with
  | EmptyString => false
  | String _ s' => Js.includes s' needle
  end.
Proof. destruct s; reflexivity. Qed.

Lemma prefix_app_l (a b : string) :
  forall s, String.prefix (a ++ b) s = true -> String.prefix a s = true.
Proof.
  induction a as [|c a IH]; intros s H; [now destruct s|].
  destruct s as [|c' s]; cbn in *; [discriminate|].
  destruct (ascii_dec c c'); [now apply IH|discriminate].
Qed.

Lemma includes_past_prefix (a b : string) :
  forall s, String.prefix (a ++ b) s = true -> Js.includes s b = true.
Proof.
  induction a as [|c a IH]; intros s H; rewrite includes_unfold.
  - cbn in H. now rewrite H.
  - destruct s as [|c' s]; cbn in H; [discriminate|].
    destruct (ascii_dec c c'); [|discriminate].
    rewrite (IH s H). apply orb_true_r.
Qed.

Lemma includes_app (a b : string) :
  forall s, Js.includes s (a ++ b) = true ->
            Js.includes s a = true /\ Js.includes s b = true.
Proof.
  assert (forall s, String.prefix (a ++ b) s = true ->
                    Js.includes s a = true /\ Js.includes s b = true) as Hhere.
  { intros s H. split; [|now apply (includes_past_prefix a b)].
    now rewrite includes_unfold, (prefix_app_l a b s H). }
  induction s as [|c s IH]; intros H; rewrite includes_unfold in H.
  - rewrite orb_false_r in H. now apply Hhere.
  - apply orb_true_iff in H as [H|H]; [now apply Hhere|].
    destruct (IH H) as [Ha Hb].
    rewrite (includes_unfold _ a), (includes_unfold _ b), Ha, Hb.
    split; apply orb_true_r.
Qed.

Lemma labelIncludes_not_meme (result : LabelScore) :
  labelIncludes result "not meme" = true ->
  labelIncludes result "not" = true /\ labelIncludes result "meme" = true.
Proof.
  unfold labelIncludes. destruct (label result) as [l|]; [|discriminate].
  intros H. destruct (includes_app "not" " meme" _ H) as [Hnot Hmeme].
  split; [exact Hnot|]. now destruct (includes_app " " "meme" _ Hmeme).
Qed.

Lemma some_class_iff_meme (result : LabelScore) :
  isMemeLabel result || isNotMemeLabel result = labelIncludes result "meme".
Proof.
  unfold isMemeLabel, isNotMemeLabel.
  destruct (labelIncludes result "not meme") eqn:Hnm.
  - now destruct (labelIncludes_not_meme result Hnm) as [-> ->].
  - now destruct (labelIncludes result "meme"), (labelIncludes result "not").
Qed.

(** X1: the two label tests split the labels that mention "meme": no entry
    passes both, and an entry passes one of them exactly when its label, in
    lower case, includes "meme". *)
Theorem label_classes_partition (result : LabelScore) :
  isMemeLabel result && isNotMemeLabel result = false /\
  isMemeLabel result || isNotMemeLabel result = labelIncludes result "meme".
Proof.
  split; [|apply some_class_iff_meme].
  unfold isMemeLabel, isNotMemeLabel.
  destruct (labelIncludes result "not meme") eqn:Hnm.
  - now destruct (labelIncludes_not_meme result Hnm) as [-> ->].
  - now destruct (labelIncludes result "meme"), (labelIncludes result "not").
Qed.

Lemma find_all_false {A} (f : A -> bool) (l : list A) :
  (forall x, In x l -> f x = false) -> List.find f l = None.
Proof.
  induction l as [|x l IH]; intros H; [reflexivity|].
  cbn. rewrite (H x (or_introl eq_refl)). apply IH. intros y Hy. apply H. now right.
Qed.

(** X2: when no label of the raw result mentions "meme" (a backend that
    answers LABEL_0 and LABEL_1, say), both scores resolve to 0.0 and the
    image is classified as a meme, with confidence 0. *)
Theorem unrecognised_labels_give_meme (results : list LabelScore) :
  (forall r, In r results -> labelIncludes r "meme" = false) ->
  determineMemeClassification results =
  {| Decision.isMeme := true; Decision.confidence := 0%float |}.
Proof.
  intros H. unfold determineMemeClassification.
  rewrite (find_all_false isMemeLabel), (find_all_false isNotMemeLabel).
  - reflexivity.
  - intros r Hr. pose proof (some_class_iff_meme r) as Hu.
    rewrite (H r Hr) in Hu. now apply orb_false_iff in Hu.
  - intros r Hr. pose proof (some_class_iff_meme r) as Hu.
    rewrite (H r Hr) in Hu. now apply orb_false_iff in Hu.
Qed.

Lemma unrecognised_labels_give_meme_witness :
  determineMemeClassification
    [ {| label := Some "LABEL_0"; score := 0.97%float |};
      {| label := Some "LABEL_1"; score := 0.03%float |} ] =
  {| Decision.isMeme := true; Decision.confidence := 0%float |}.
Proof.
  apply unrecognised_labels_give_meme.
  intros r [<- | [<- | []]]; reflexivity.
Defined.

(** ** Scores and decisions *)

Lemma ge_by_key (x y c : float) : fkey x = fkey y -> Js.ge x c = Js.ge y c.
Proof. intros H. unfold Js.ge. now rewrite !leb_key, H. Qed.

Lemma Math_max_key_right (a b : float) :
  isNumber a -> isNumber b -> Js.gt a b = false ->
  fkey (Js.Math_max a b) = fkey b.
Proof.
  intros Ha Hb Hgt. unfold Js.Math_max. rewrite Ha, Hb. cbn [orb].
  destruct (PrimFloat.ltb a b) eqn:Hlt; [reflexivity|].
  unfold Js.gt in Hgt. rewrite Hgt.
  destruct (PrimFloat.get_sign a); [reflexivity|].
  apply isNumber_key in Ha as [[[a1 a2] a3] Ka].
  apply isNumber_key in Hb as [[[b1 b2] b3] Kb].
  rewrite ltb_key, Ka, Kb in Hlt, Hgt. rewrite Ka, Kb.
  destruct (lex3_spec (a1, a2, a3) (b1, b2, b3)) as [->| |];
    [reflexivity|discriminate|].
  destruct (lex3_spec (b1, b2, b3) (a1, a2, a3)) as [->| |];
    [reflexivity|discriminate|].
  unfold lexlt in *. exfalso. lia.
Qed.

Lemma ge_high_ge_low (x : float) :
  Js.ge x 0.8%float = true -> Js.ge x 0.6%float = true.
Proof.
  float_keys. rewrite fkey_high, fkey_low.
  destruct (fkey x) as [[[a1 a2] a3]|]; [|discriminate].
  intros H. lex_cases.
Qed.

Lemma not_lt_low_ge_low (x : float) :
  isNumber x -> Js.lt x 0.6%float = false -> Js.ge x 0.6%float = true.
Proof.
  intros [[[a1 a2] a3] Ka]%isNumber_key. float_keys. rewrite Ka, fkey_low.
  intros H. lex_cases.
Qed.

(** X3: the rule leans towards meme.  A meme score above the not-meme score
    always gives meme; an image is declared not a meme only when the
    not-meme score is at least the meme score and at least 0.6. *)
Theorem decision_leans_to_meme (results : list LabelScore) :
  let memeScore := scoreOrZero (List.find isMemeLabel results) in
  let notMemeScore := scoreOrZero (List.find isNotMemeLabel results) in
  let d := determineMemeClassification results in
  (Js.gt memeScore notMemeScore = true -> Decision.isMeme d = true) /\
  (Decision.isMeme d = false ->
   Js.gt memeScore notMemeScore = false /\ Js.ge notMemeScore 0.6%float = true).
Proof.
  intros m n d. subst d. rewrite determineMemeClassification_isMeme.
  fold m n. unfold decisionRule.
  assert (isNumber m) as Hm by apply scoreOrZero_isNumber.
  assert (isNumber n) as Hn by apply scoreOrZero_isNumber.
  assert (Js.gt m n = false -> Js.ge (Js.Math_max m n) 0.6%float = true ->
          Js.gt m n = false /\ Js.ge n 0.6%float = true) as Hlose.
  { intros Hgt Hge. split; [exact Hgt|].
    now rewrite <- (ge_by_key _ _ _ (Math_max_key_right m n Hm Hn Hgt)). }
  unfold confidenceBand.
  destruct (Js.ge (Js.Math_max m n) 0.8%float) eqn:Hhigh.
  - split; [auto|]. intros Hgt. apply Hlose; [exact Hgt|].
    now apply ge_high_ge_low.
  - destruct (Js.lt (Js.Math_max m n) 0.6%float) eqn:Hlow; [now split|].
    destruct (Js.lt _ 0.3%float); [now split|].
    split; [auto|]. intros Hgt. apply Hlose; [exact Hgt|].
    apply not_lt_low_ge_low; [now apply Math_max_isNumber|exact Hlow].
Qed.

Lemma decision_leans_to_meme_witness :
  Decision.isMeme (determineMemeClassification (twoClass 0.61 0.39)) = true /\
  Js.ge 0.75%float 0.6%float = true.
Proof.
  split.
  - destruct (decision_leans_to_meme (twoClass 0.61 0.39)) as [H _].
    exact (H eq_refl).
  - destruct (decision_leans_to_meme (twoClass 0.25 0.75)) as [_ H].
    exact (proj2 (H eq_refl)).
Defined.

Lemma fkey_zero : fkey 0%float = Some (0, 0, 0)%Z.
Proof. vm_compute. reflexivity. Qed.

Lemma eqb_or_zero (x : float) :
  PrimFloat.is_nan x = false -> PrimFloat.eqb (Js.or_zero x) x = true.
Proof.
  intros Hnan. unfold Js.or_zero. rewrite Hnan. cbn [orb].
  destruct (PrimFloat.is_zero x) eqn:Hz.
  - unfold PrimFloat.is_zero in Hz. change PrimFloat.zero with 0%float in Hz.
    rewrite eqb_key in *. rewrite fkey_zero in *.
    destruct (fkey x) as [[[a1 a2] a3]|]; [|discriminate Hz].
    lex_cases.
  - unfold PrimFloat.is_nan in Hnan. now apply negb_false_iff in Hnan.
Qed.

Lemma ge_by_eqb (x y c : float) :
  PrimFloat.eqb x y = true ->
  Js.ge x c = Js.ge y c /\ Js.ge c x = Js.ge c y.
Proof.
  unfold Js.ge. rewrite eqb_key, !leb_key.
  destruct (fkey x) as [[[a1 a2] a3]|], (fkey y) as [[[b1 b2] b3]|];
    try discriminate.
  intros H. assert ((a1, a2, a3) = (b1, b2, b3)) as ->; [|now split].
  destruct (lex3_spec (a1, a2, a3) (b1, b2, b3)); [assumption|discriminate..].
Qed.

(** X4: the confidence is the score of the first entry labelled as meme,
    up to the sign of zero, with [NaN] read as 0: it is never [NaN], and it is
    in [0,1] whenever that score is. *)
Theorem confidence_is_first_meme_score (results : list LabelScore)
    (r : LabelScore) :
  List.find isMemeLabel results = Some r ->
  let c := Decision.confidence (determineMemeClassification results) in
  PrimFloat.is_nan c = false /\
  (PrimFloat.is_nan (score r) = true -> c = 0%float) /\
  (PrimFloat.is_nan (score r) = false -> PrimFloat.eqb c (score r) = true) /\
  (Js.ge (score r) 0%float = true -> Js.ge 1%float (score r) = true ->
   Js.ge c 0%float = true /\ Js.ge 1%float c = true).
Proof.
  intros Hfind c. subst c. unfold determineMemeClassification.
  cbn [Decision.confidence]. rewrite Hfind. cbn [scoreOrZero].
  split; [apply or_zero_isNumber|]. split; [|split].
  - intros Hnan. unfold Js.or_zero. now rewrite Hnan.
  - apply eqb_or_zero.
  - intros H0 H1. assert (PrimFloat.is_nan (score r) = false) as Hnan.
    { unfold Js.ge in H0. rewrite leb_key in H0. rewrite is_nan_key.
      destruct (fkey 0%float); [|discriminate].
      now destruct (fkey (score r)). }
    destruct (ge_by_eqb _ _ 0%float (eqb_or_zero _ Hnan)) as [-> _].
    destruct (ge_by_eqb _ _ 1%float (eqb_or_zero _ Hnan)) as [_ ->].
    now split.
Qed.

Lemma confidence_is_first_meme_score_witness :
  Decision.confidence
    (determineMemeClassification
       [ {| label := Some "meme"; score := PrimFloat.nan |};
         {| label := Some "not meme"; score := 0.2%float |} ]) = 0%float /\
  PrimFloat.eqb
    (Decision.confidence (determineMemeClassification (twoClass 0.63 0.37)))
    0.63%float = true.
Proof.
  split.
  - destruct (confidence_is_first_meme_score
                [ {| label := Some "meme"; score := PrimFloat.nan |};
                  {| label := Some "not meme"; score := 0.2%float |} ]
                {| label := Some "meme"; score := PrimFloat.nan |} eq_refl)
      as (_ & H & _).
    exact (H eq_refl).
  - destruct (confidence_is_first_meme_score (twoClass 0.63 0.37)
                {| label := Some "meme"; score := 0.63%float |} eq_refl)
      as (_ & _ & H & _).
    exact (H eq_refl).
Defined.

Lemma find_hd_filter {A} (f : A -> bool) (l : list A) :
  List.find f l = hd_error (List.filter f l).
Proof.
  induction l as [|x l IH]; [reflexivity|]. cbn. now destruct (f x).
Qed.

Lemma filter_Permutation_bool {A} (f : A -> bool) (l l' : list A) :
  l ≡ₚ l' -> List.filter f l ≡ₚ List.filter f l'.
Proof.
  induction 1 as [|x l l' _ IH|x y l|l l' l'' _ IH _ IH'].
  - reflexivity.
  - cbn. destruct (f x); [now constructor|exact IH].
  - cbn. destruct (f x), (f y); try reflexivity. constructor.
  - now transitivity (List.filter f l').
Qed.

Lemma find_Permutation_unique {A} (f : A -> bool) (l l' : list A) :
  l ≡ₚ l' -> length (List.filter f l) <= 1 -> List.find f l = List.find f l'.
Proof.
  intros Hperm Hlen. rewrite !find_hd_filter.
  pose proof (filter_Permutation_bool f l l' Hperm) as Hf.
  destruct (List.filter f l) as [|x [|y rest]].
  - now apply Permutation_nil in Hf as ->.
  - now apply Permutation_length_1_inv in Hf as ->.
  - cbn in Hlen. lia.
Qed.

(** X5: the decision does not depend on the order in which the backend
    lists the classes, as long as each class is reported at most once. *)
Theorem decision_ignores_order (results results' : list LabelScore) :
  results ≡ₚ results' ->
  length (List.filter isMemeLabel results) <= 1 ->
  length (List.filter isNotMemeLabel results) <= 1 ->
  determineMemeClassification results = determineMemeClassification results'.
Proof.
  intros Hperm Hmeme Hnot. unfold determineMemeClassification.
  now rewrite (find_Permutation_unique isMemeLabel results results' Hperm Hmeme),
    (find_Permutation_unique isNotMemeLabel results results' Hperm Hnot).
Qed.

Lemma decision_ignores_order_witness :
  determineMemeClassification (twoClass 0.25 0.75) =
  determineMemeClassification
    [ {| label := Some "not meme"; score := 0.75%float |};
      {| label := Some "meme"; score := 0.25%float |} ].
Proof.
  apply decision_ignores_order.
  - apply perm_swap.
  - vm_compute. constructor.
  - vm_compute. constructor.
Defined.

(** With a class reported twice the first entry counts, so the order
    matters. *)
Example duplicate_class_first_wins :
  Decision.confidence
    (determineMemeClassification
       [ {| label := Some "meme"; score := 0.9%float |};
         {| label := Some "meme"; score := 0.1%float |} ]) = 0.9%float /\
  Decision.confidence
    (determineMemeClassification
       [ {| label := Some "meme"; score := 0.1%float |};
         {| label := Some "meme"; score := 0.9%float |} ]) = 0.1%float.
Proof. split; reflexivity. Qed.

(** ** More on the model lifecycle *)

(** X6: on an unloaded model the accelerated backend is preferred: when its
    acquisition succeeds its handle is stored and the software backend is
    never asked; when it fails and the software one succeeds, that handle is
    stored after exactly the two acquisitions, in this order. *)
Theorem loadModel_prefers_webgpu (env : Env) (w : World) :
  classifier w = None ->
  let k := length (acquisitions w) in
  (forall h, pipeline env k webgpu = Fulfilled h ->
     exists w',
       loadModel env w = (Normal tt, w') /\
       classifier w' = Some h /\ modelStatus w' = ready /\
       acquisitions w' = acquisitions w ++ [webgpu]) /\
  (forall e h, pipeline env k webgpu = Failed e ->
     pipeline env (S k) wasm = Fulfilled h ->
     exists w',
       loadModel env w = (Normal tt, w') /\
       classifier w' = Some h /\ modelStatus w' = ready /\
       acquisitions w' = acquisitions w ++ [webgpu; wasm]).
Proof.
  intros Hc k. rewrite (loadModel_unloaded env w Hc). cbv zeta. fold k. split.
  - intros h ->. eexists. split; [reflexivity|]. now repeat split.
  - intros e h -> ->. eexists. split; [reflexivity|]. cbn.
    rewrite <- app_assoc. now repeat split.
Qed.

Lemma loadModel_prefers_webgpu_witness :
  (exists w',
     loadModel webgpuEnv initialWorld = (Normal tt, w') /\
     classifier w' = Some pickyHandle /\ acquisitions w' = [webgpu]) /\
  (exists w',
     loadModel wasmOnlyEnv initialWorld = (Normal tt, w') /\
     classifier w' = Some sampleHandle /\ acquisitions w' = [webgpu; wasm]).
Proof.
  destruct (loadModel_prefers_webgpu webgpuEnv initialWorld eq_refl) as [Hgpu _].
  destruct (loadModel_prefers_webgpu wasmOnlyEnv initialWorld eq_refl) as [_ Hwasm].
  split.
  - destruct (Hgpu pickyHandle eq_refl) as (w' & Hrun & Hh & _ & Hacq).
    exists w'. repeat split; assumption.
  - destruct (Hwasm _ sampleHandle eq_refl eq_refl) as (w' & Hrun & Hh & _ & Hacq).
    exists w'. repeat split; assumption.
Defined.

(** X7: once the acquisitions it awaits have settled, [loadModel] ends
    in one of two ways, and the two readiness queries tell which: after a
    normal return [isModelReady] is true and the status is [ready]; after the
    load error [isModelReady] is false and the status is [error].  It makes no
    inference call and does not read the clock. *)
Theorem loadModel_outcome (env : Env) (w : World) :
  exists w',
    ((loadModel env w = (Normal tt, w') /\
      isModelReady w' = (Normal true, w') /\
      getModelStatus w' = (Normal ready, w')) \/
     (loadModel env w = (Throw ModelLoadError, w') /\
      isModelReady w' = (Normal false, w') /\
      getModelStatus w' = (Normal error, w'))) /\
    inferences w' = inferences w /\ clockReads w' = clockReads w.
Proof.
  assert (forall w0 : World,
            isModelReady w0 =
            (Normal match classifier w0, modelStatus w0 with
                    | Some _, ready => true
                    | _, _ => false
                    end, w0)) as Hready by reflexivity.
  destruct (classifier w) as [h|] eqn:Hc.
  - rewrite (loadModel_loaded env w h Hc). exists (set_modelStatus ready w).
    split; [left|now split]. rewrite Hready. cbn. now rewrite Hc.
  - rewrite (loadModel_unloaded env w Hc). cbv zeta.
    destruct (pipeline env _ webgpu) as [h1|e1].
    { eexists. split; [left; now repeat split|]. now split. }
    destruct (pipeline env _ wasm) as [h2|e2].
    { eexists. split; [left; now repeat split|]. now split. }
    eexists. split; [right|].
    + split; [reflexivity|]. rewrite Hready. cbn. now rewrite Hc.
    + now split.
Qed.

(** X8: a failed load is not final: the handle is still unset, so a later
    [loadModel] asks the backends again, and succeeds as soon as one of them
    does. *)
Theorem loadModel_retry (env env' : Env) (w w1 : World) (e : Exception)
    (h : ImageClassificationPipeline) :
  loadModel env w = (Throw e, w1) ->
  pipeline env' (length (acquisitions w1)) webgpu = Fulfilled h ->
  exists w2,
    loadModel env' w1 = (Normal tt, w2) /\
    classifier w2 = Some h /\ modelStatus w2 = ready /\
    acquisitions w2 = acquisitions w ++ [webgpu; wasm; webgpu].
Proof.
  intros Hfail Hgpu.
  assert (classifier w1 = None /\
          acquisitions w1 = acquisitions w ++ [webgpu; wasm]) as [Hc1 Hacq].
  { destruct (classifier w) as [h0|] eqn:Hc.
    - now rewrite (loadModel_loaded env w h0 Hc) in Hfail.
    - rewrite (loadModel_unloaded env w Hc) in Hfail. cbv zeta in Hfail.
      destruct (pipeline env _ webgpu); [discriminate|].
      destruct (pipeline env _ wasm); [discriminate|].
      injection Hfail as _ <-. cbn. rewrite Hc, <- app_assoc. now split. }
  rewrite (loadModel_unloaded env' w1 Hc1). cbv zeta. rewrite Hgpu.
  eexists. split; [reflexivity|]. cbn. rewrite Hacq, <- app_assoc.
  now repeat split.
Qed.

Lemma loadModel_retry_witness :
  exists w1 w2,
    loadModel noBackendEnv initialWorld = (Throw ModelLoadError, w1) /\
    loadModel webgpuEnv w1 = (Normal tt, w2) /\
    classifier w2 = Some pickyHandle /\ modelStatus w2 = ready.
Proof.
  exists (snd (loadModel noBackendEnv initialWorld)).
  destruct (loadModel_retry noBackendEnv webgpuEnv initialWorld
              (snd (loadModel noBackendEnv initialWorld)) ModelLoadError
              pickyHandle eq_refl eq_refl) as (w2 & Hrun & Hh & Hs & _).
  exists w2. split; [reflexivity|]. repeat split; assumption.
Defined.

(** ** More on batches *)

Section SettleAny.

Variable env : Env.
Variable replyOf : nat -> Settlement RawOutput.
Variable startOf : nat -> float.
Variable promises : list (Promise ClassificationResult).

Hypothesis promises_pending :
  forall i, i < length promises ->
    promises !! i =
    Some (Pending (replyOf i) (classifyImage_resume env (startOf i))).

(** Any schedule at all: the indices it names, if pending, are the slots
    that get filled; nothing is thrown on the way. *)
Lemma settleAll_any (schedule : list nat) :
  forall (slots : list (option ClassificationResult)) (w : World),
    exists slots' k,
      settleAll promises schedule slots w = (Normal slots', advance k w) /\
      length slots' = length slots /\
      k <= length schedule /\
      forall i, filled slots' i <->
                (filled slots i \/
                 (i ∈ schedule /\ slots !! i = Some None /\ i < length promises)).
Proof.
  induction schedule as [|i later IH]; intros slots w.
  - exists slots, 0. cbn. rewrite advance_0.
    split; [reflexivity|]. split; [reflexivity|]. split; [lia|].
    intros j. split; [now left|]. intros [H|[H _]]; [exact H|].
    now apply elem_of_nil in H.
  - cbn [settleAll].
    destruct (decide (i < length promises)) as [Hlt|Hge];
      [destruct (slots !! i) as [[a|]|] eqn:Hslot|].
    + (* already settled *)
      rewrite (promises_pending i Hlt).
      destruct (IH slots w) as (slots' & k & Hrun & Hlen & Hk & Hfill).
      exists slots', k. rewrite Hrun.
      split; [reflexivity|]. split; [assumption|]. split; [cbn; lia|].
      intros j. rewrite Hfill. split.
      * intros [H|(Hin & Hs & Hn)]; [now left|].
        right. split; [now right|now split].
      * intros [H|(Hin & Hs & Hn)]; [now left|].
        apply elem_of_cons in Hin as [->|Hin]; [congruence|].
        right. now repeat split.
    + (* pending: resumed now *)
      rewrite (promises_pending i Hlt).
      unfold bind at 1. rewrite classifyImage_resume_spec.
      set (r := classificationOf _ _).
      destruct (IH (<[i := Some r]> slots) (tick w))
        as (slots' & k & Hrun & Hlen & Hk & Hfill).
      exists slots', (S k). rewrite Hrun, advance_tick.
      split; [reflexivity|]. split; [now rewrite Hlen, length_insert|].
      split; [cbn; lia|].
      intros j. rewrite Hfill. destruct (decide (j = i)) as [->|Hne].
      * split; intros _.
        { right. split; [now left|now split]. }
        left. exists r. apply list_lookup_insert_eq.
        eapply lookup_lt_Some, Hslot.
      * unfold filled. rewrite !list_lookup_insert_ne by congruence. split.
        { intros [H|(Hin & Hs & Hn)]; [now left|].
          right. split; [now right|now split]. }
        intros [H|(Hin & Hs & Hn)]; [now left|].
        apply elem_of_cons in Hin as [->|Hin]; [contradiction|].
        right. now repeat split.
    + (* no slot at this index *)
      rewrite (promises_pending i Hlt).
      destruct (IH slots w) as (slots' & k & Hrun & Hlen & Hk & Hfill).
      exists slots', k. rewrite Hrun.
      split; [reflexivity|]. split; [assumption|]. split; [cbn; lia|].
      intros j. rewrite Hfill. split.
      * intros [H|(Hin & Hs & Hn)]; [now left|].
        right. split; [now right|now split].
      * intros [H|(Hin & Hs & Hn)]; [now left|].
        apply elem_of_cons in Hin as [->|Hin]; [congruence|].
        right. now repeat split.
    + (* out of range *)
      rewrite (proj2 (lookup_ge_None promises i)) by lia.
      destruct (IH slots w) as (slots' & k & Hrun & Hlen & Hk & Hfill).
      exists slots', k. rewrite Hrun.
      split; [reflexivity|]. split; [assumption|]. split; [cbn; lia|].
      intros j. rewrite Hfill. split.
      * intros [H|(Hin & Hs & Hn)]; [now left|].
        right. split; [now right|now split].
      * intros [H|(Hin & Hs & Hn)]; [now left|].
        apply elem_of_cons in Hin as [->|Hin]; [lia|].
        right. now repeat split.
Qed.

End SettleAny.

Lemma collect_unfilled {A} (slots : list (option A)) (i : nat) :
  slots !! i = Some None -> collect slots = None.
Proof.
  revert i. induction slots as [|[a|] slots IH]; intros [|i] H;
    try discriminate; try reflexivity.
  cbn in *. now rewrite (IH i H).
Qed.

(** The batch on a loaded model and a non-empty input, for any schedule. *)
Lemma classifyImageBatch_shape (env : Env) (schedule : list nat)
    (imageUrls : list string) (w : World) (handle : ImageClassificationPipeline) :
  classifier w = Some handle ->
  imageUrls <> [] ->
  promiseAllFault env = None ->
  exists slots k,
    length slots = length imageUrls /\
    (forall i, filled slots i <-> (i ∈ schedule /\ i < length imageUrls)) /\
    classifyImageBatch env schedule imageUrls w =
    (match collect slots with
     | Some values => Normal values
     | None => Unsettled
     end, advance k (started imageUrls w)).
Proof.
  intros Hc Hne Hfault.
  set (ps := promisesFor env handle w imageUrls).
  assert (length ps = length imageUrls) as Hps by apply length_imap.
  pose (replyOf := fun i =>
          match imageUrls !! i with
          | Some url => infer handle (length (inferences w) + i) url
          | None => Fulfilled RawUndefined
          end).
  pose (startOf := fun i => performance_now env (clockReads w + i)).
  assert (forall i, i < length ps ->
            ps !! i = Some (Pending (replyOf i) (classifyImage_resume env (startOf i))))
    as Hpending.
  { intros i Hi. rewrite Hps in Hi.
    destruct (lookup_lt_is_Some_2 imageUrls i Hi) as [url Hurl].
    unfold ps, replyOf. rewrite Hurl. now apply promisesFor_lookup. }
  destruct (settleAll_any env replyOf startOf ps Hpending schedule
              (map initialSlot ps) (started imageUrls w))
    as (slots & k & Hrun & Hlen & _ & Hfill).
  assert (forall i, i < length ps -> map initialSlot ps !! i = Some None) as Hinit.
  { intros i Hi. now rewrite map_fmap, list_lookup_fmap, Hpending. }
  exists slots, k. split; [|split].
  - now rewrite Hlen, map_fmap, length_fmap.
  - intros i. rewrite Hfill, <- Hps. split.
    + intros [[a Ha]|(Hin & _ & Hlt)]; [|now split].
      assert (i < length ps) as Hlt.
      { apply lookup_lt_Some in Ha. now rewrite map_fmap, length_fmap in Ha. }
      rewrite (Hinit i Hlt) in Ha. discriminate.
    + intros [Hin Hlt]. right. split; [exact Hin|]. split; [auto|exact Hlt].
  - unfold classifyImageBatch, bind at 1, read. rewrite Hc.
    destruct imageUrls as [|u us]; [contradiction|].
    change (length (u :: us) =? 0)%nat with false. cbv iota.
    unfold try_catch, bind at 1.
    rewrite (array_map_classifyImage env handle (u :: us) w Hc).
    fold ps. unfold bind at 1, Promise_all. rewrite Hfault.
    unfold ps at 1. rewrite firstRejected_promisesFor. fold ps.
    unfold bind at 1. rewrite Hrun. now destruct (collect slots).
Qed.

(** X9: once the model is loaded the batch never throws, whatever the
    input, the order in which the inferences complete, which of them fail,
    and whether [Promise.all] itself fails. *)
Theorem classifyImageBatch_never_throws (env : Env) (schedule : list nat)
    (imageUrls : list string) (w : World) (handle : ImageClassificationPipeline) :
  classifier w = Some handle ->
  forall e w', classifyImageBatch env schedule imageUrls w <> (Throw e, w').
Proof.
  intros Hc e w'.
  destruct imageUrls as [|u us].
  { unfold classifyImageBatch, bind, read. now rewrite Hc. }
  destruct (promiseAllFault env) as [fault|] eqn:Hfault.
  - unfold classifyImageBatch, bind at 1, read. rewrite Hc.
    change (length (u :: us) =? 0)%nat with false. cbv iota.
    unfold try_catch, bind at 1.
    rewrite (array_map_classifyImage env handle (u :: us) w Hc).
    unfold bind at 1, Promise_all. now rewrite Hfault.
  - destruct (classifyImageBatch_shape env schedule (u :: us) w handle Hc)
      as (slots & k & _ & _ & ->); [discriminate|exact Hfault|].
    now destruct (collect slots).
Qed.

Lemma classifyImageBatch_never_throws_witness :
  classifier (set_classifier brokenHandle initialWorld) = Some brokenHandle /\
  (forall e w',
     classifyImageBatch faultyWaitEnv [5; 1; 1] ["cat.png"; "doge.png"]
       (set_classifier brokenHandle initialWorld) <> (Throw e, w')) /\
  (forall e w',
     classifyImageBatch noBackendEnv [5; 1; 1] ["cat.png"; "doge.png"]
       (set_classifier brokenHandle initialWorld) <> (Throw e, w')).
Proof.
  split; [reflexivity|]. split.
  - exact (classifyImageBatch_never_throws faultyWaitEnv [5; 1; 1]
             ["cat.png"; "doge.png"] (set_classifier brokenHandle initialWorld)
             brokenHandle eq_refl).
  - exact (classifyImageBatch_never_throws noBackendEnv [5; 1; 1]
             ["cat.png"; "doge.png"] (set_classifier brokenHandle initialWorld)
             brokenHandle eq_refl).
Defined.

(** X10: with [Promise.all] at work, the batch returns exactly when every
    inference completes; an inference that never does keeps the whole batch
    unsettled. *)
Theorem classifyImageBatch_settles_iff (env : Env) (schedule : list nat)
    (imageUrls : list string) (w : World) (handle : ImageClassificationPipeline) :
  classifier w = Some handle ->
  imageUrls <> [] ->
  promiseAllFault env = None ->
  ((forall i, i < length imageUrls -> i ∈ schedule) <->
   (exists results w',
      classifyImageBatch env schedule imageUrls w = (Normal results, w'))) /\
  ((exists i, i < length imageUrls /\ i ∉ schedule) <->
   (exists w', classifyImageBatch env schedule imageUrls w = (Unsettled, w'))).
Proof.
  intros Hc Hne Hfault.
  destruct (classifyImageBatch_shape env schedule imageUrls w handle
              Hc Hne Hfault) as (slots & k & Hlen & Hfill & ->).
  assert ((forall i, i < length imageUrls -> i ∈ schedule) ->
          exists values, collect slots = Some values) as Hall.
  { intros H. destruct (collect_all slots) as (values & Hv & _); [|eauto].
    intros i x Hi. assert (i < length imageUrls) as Hlt.
    { rewrite <- Hlen. eapply lookup_lt_Some, Hi. }
    destruct (proj2 (Hfill i) (conj (H i Hlt) Hlt)) as [a Ha].
    rewrite Ha in Hi. injection Hi as <-. eauto. }
  assert (forall i, i < length imageUrls -> i ∉ schedule ->
                    collect slots = None) as Hmiss.
  { intros i Hlt Hout. apply (collect_unfilled slots i).
    rewrite <- Hlen in Hlt.
    destruct (lookup_lt_is_Some_2 slots i Hlt) as [[a|] Hi]; [|exact Hi].
    destruct (proj1 (Hfill i) (ex_intro _ a Hi)) as [Hin _]. contradiction. }
  split; split.
  - intros H. destruct (Hall H) as [values ->]. eauto.
  - intros (results & w' & Hrun) i Hlt.
    destruct (decide (i ∈ schedule)) as [Hin|Hout]; [exact Hin|].
    now rewrite (Hmiss i Hlt Hout) in Hrun.
  - intros (i & Hlt & Hout). rewrite (Hmiss i Hlt Hout). eauto.
  - intros (w' & Hrun).
    destruct (decide (Forall (fun i => i ∈ schedule) (seq 0 (length imageUrls))))
      as [Hcov|Hnot].
    + destruct Hall as [values Hv].
      { intros i Hlt. rewrite Forall_forall in Hcov. apply Hcov, elem_of_seq. lia. }
      now rewrite Hv in Hrun.
    + apply not_Forall_Exists in Hnot; [|intros i; apply _].
      apply Exists_exists in Hnot as (i & Hi & Hout).
      exists i. apply elem_of_seq in Hi. split; [lia|exact Hout].
Qed.

Lemma classifyImageBatch_settles_iff_witness :
  (exists results w',
     classifyImageBatch wasmOnlyEnv [1; 0] ["cat.png"; "doge.png"] pickyWorld =
     (Normal results, w')) /\
  (exists w',
     classifyImageBatch wasmOnlyEnv [1] ["cat.png"; "doge.png"] pickyWorld =
     (Unsettled, w')).
Proof.
  split.
  - destruct (classifyImageBatch_settles_iff wasmOnlyEnv [1; 0]
                ["cat.png"; "doge.png"] pickyWorld pickyHandle eq_refl)
      as [[H _] _]; [discriminate|reflexivity|].
    apply H. intros i Hi. cbn in Hi.
    destruct i as [|[|i]]; [right; left|left|lia].
  - destruct (classifyImageBatch_settles_iff wasmOnlyEnv [1]
                ["cat.png"; "doge.png"] pickyWorld pickyHandle eq_refl)
      as [_ [H _]]; [discriminate|reflexivity|].
    apply H. exists 0. split; [cbn; lia|].
    intros Hin. apply elem_of_cons in Hin as [Hin|Hin]; [discriminate|].
    now apply elem_of_nil in Hin.
Defined.

(** X11: a batch of one image is the single classification of that image:
    same result, same world afterwards. *)
Theorem classifyImageBatch_singleton (env : Env) (imageUrl : string) (w : World)
    (handle : ImageClassificationPipeline) :
  classifier w = Some handle ->
  promiseAllFault env = None ->
  exists r w',
    await (classifyImage env imageUrl) w = (Normal r, w') /\
    classifyImageBatch env [0] [imageUrl] w = (Normal [r], w').
Proof.
  intros Hc Hfault.
  destruct (classifyImageBatch_settled env [0] [imageUrl] w handle Hc)
    as (results & Hrun & Hlen & Hres); [discriminate|exact Hfault|reflexivity|].
  destruct (Hres 0 imageUrl eq_refl) as (j & Hj & Hr).
  destruct j as [|j]; [|destruct j; discriminate Hj].
  destruct results as [|r [|r' rest]]; try discriminate Hlen.
  injection Hr as ->.
  rewrite (classifyImage_loaded env imageUrl w handle Hc), Hrun.
  eexists _, _. split; [reflexivity|]. f_equal.
  - do 2 f_equal. cbn [length]. f_equal.
    + f_equal. lia.
    + f_equal; f_equal; lia.
  - unfold advance, started, tick, record_inference. cbn. f_equal. lia.
Qed.

Lemma classifyImageBatch_singleton_witness :
  exists r w',
    await (classifyImage wasmOnlyEnv "doge.png") pickyWorld = (Normal r, w') /\
    classifyImageBatch wasmOnlyEnv [0] ["doge.png"] pickyWorld = (Normal [r], w') /\
    isMeme r = true.
Proof.
  destruct (classifyImageBatch_singleton wasmOnlyEnv "doge.png" pickyWorld
              pickyHandle eq_refl eq_refl) as (r & w' & Hone & Hbatch).
  exists r, w'. split; [exact Hone|]. split; [exact Hbatch|].
  injection Hone as <- _. reflexivity.
Defined.

(** ** What classification leaves alone *)

Lemma classifyImageBatch_loaded_world (env : Env) (schedule : list nat)
    (imageUrls : list string) (w : World) (handle : ImageClassificationPipeline) :
  classifier w = Some handle ->
  exists c k,
    classifyImageBatch env schedule imageUrls w =
    (c, advance k (started imageUrls w)).
Proof.
  intros Hc. destruct imageUrls as [|u us].
  { exists (Normal []), 0. rewrite advance_0, started_nil.
    unfold classifyImageBatch, bind, read. now rewrite Hc. }
  destruct (promiseAllFault env) as [fault|] eqn:Hfault.
  - exists (Normal (map (fun _ => safeDefault 0%float) (u :: us))), 0.
    rewrite advance_0.
    unfold classifyImageBatch, bind at 1, read. rewrite Hc.
    change (length (u :: us) =? 0)%nat with false. cbv iota.
    unfold try_catch, bind at 1.
    rewrite (array_map_classifyImage env handle (u :: us) w Hc).
    unfold bind at 1, Promise_all. now rewrite Hfault.
  - destruct (classifyImageBatch_shape env schedule (u :: us) w handle Hc)
      as (slots & k & _ & _ & ->); [discriminate|exact Hfault|]. eauto.
Qed.

Lemma classifyImageBatch_world (env : Env) (schedule : list nat)
    (imageUrls : list string) (w : World) :
  let w' := snd (classifyImageBatch env schedule imageUrls w) in
  classifier w' = classifier w /\
  modelStatus w' = modelStatus w /\
  acquisitions w' = acquisitions w /\
  inferences w' =
    match classifier w with
    | Some _ => inferences w ++ imageUrls
    | None => inferences w
    end.
Proof.
  intros w'. subst w'. destruct (classifier w) as [h|] eqn:Hc.
  - destruct (classifyImageBatch_loaded_world env schedule imageUrls w h Hc)
      as (c & k & ->). now cbn.
  - assert (classifyImageBatch env schedule imageUrls w =
            (Throw ModelNotLoadedError, w)) as ->; [|now cbn].
    unfold classifyImageBatch, bind, read. now rewrite Hc.
Qed.

Lemma classifyImage_world (env : Env) (imageUrl : string) (w : World) :
  let w' := snd (await (classifyImage env imageUrl) w) in
  classifier w' = classifier w /\
  modelStatus w' = modelStatus w /\
  acquisitions w' = acquisitions w /\
  inferences w' =
    match classifier w with
    | Some _ => inferences w ++ [imageUrl]
    | None => inferences w
    end.
Proof.
  intros w'. subst w'. destruct (classifier w) as [h|] eqn:Hc.
  - rewrite (classifyImage_loaded env imageUrl w h Hc). now cbn.
  - rewrite (classifyImage_unloaded env imageUrl w Hc). now cbn.
Qed.

(** X12: classification never touches the model. After [classifyImage] or
    [classifyImageBatch], whatever the outcome, the handle, the status and the
    acquisitions are as before; on a loaded model the inference calls made
    are exactly the inputs, in input order, and on an unloaded one none is
    made. *)
Theorem classification_leaves_model_alone (env : Env) (w : World) :
  (forall imageUrl,
     let w' := snd (await (classifyImage env imageUrl) w) in
     classifier w' = classifier w /\
     modelStatus w' = modelStatus w /\
     acquisitions w' = acquisitions w /\
     inferences w' =
       match classifier w with
       | Some _ => inferences w ++ [imageUrl]
       | None => inferences w
       end) /\
  (forall schedule imageUrls,
     let w' := snd (classifyImageBatch env schedule imageUrls w) in
     classifier w' = classifier w /\
     modelStatus w' = modelStatus w /\
     acquisitions w' = acquisitions w /\
     inferences w' =
       match classifier w with
       | Some _ => inferences w ++ imageUrls
       | None => inferences w
       end).
Proof.
  split.
  - intros imageUrl. apply classifyImage_world.
  - intros schedule imageUrls. apply classifyImageBatch_world.
Qed.

Lemma loadModel_after (env : Env) (w : World) :
  let w' := snd (loadModel env w) in
  (is_Some (classifier w') /\ modelStatus w' = ready) \/
  (classifier w' = None /\ modelStatus w' = error).
Proof.
  destruct (classifier w) as [h|] eqn:Hc.
  - rewrite (loadModel_loaded env w h Hc). left. cbn. now rewrite Hc.
  - rewrite (loadModel_unloaded env w Hc). cbv zeta.
    destruct (pipeline env _ webgpu); [left; cbn; eauto|].
    destruct (pipeline env _ wasm); [left; cbn; eauto|].
    right. cbn. now rewrite Hc.
Qed.

(** X13: between calls the two readiness queries agree.  In every world
    reached from the initial one by calls of the exported functions that have
    run to their end, a handle is stored exactly when the status is [ready],
    which is exactly when [isModelReady] answers true; the status is not left
    at [downloading]. *)
Theorem readiness_queries_agree (w : World) :
  Reachable w ->
  (is_Some (classifier w) <-> modelStatus w = ready) /\
  (isModelReady w = (Normal true, w) <-> modelStatus w = ready) /\
  modelStatus w <> downloading.
Proof.
  intros Hreach.
  assert ((is_Some (classifier w) <-> modelStatus w = ready) /\
          modelStatus w <> downloading) as [Hiff Hnot].
  { induction Hreach as [|env c w _ [IH IH']].
    - cbn. split; [|discriminate]. split; [intros [? [=]]|discriminate].
    - destruct c as [|imageUrl|schedule imageUrls| |]; cbn [after].
      + destruct (loadModel_after env w) as [[Hs ->]|[-> ->]].
        * split; [|discriminate]. now split.
        * split; [|discriminate]. split; [intros [? [=]]|discriminate].
      + destruct (classifyImage_world env imageUrl w) as (-> & -> & _).
        now split.
      + destruct (classifyImageBatch_world env schedule imageUrls w)
          as (-> & -> & _). now split.
      + now split.
      + now split. }
  split; [exact Hiff|]. split; [|exact Hnot].
  unfold isModelReady, read. split.
  - intros [= H]. destruct (classifier w); [|discriminate].
    apply Hiff. eauto.
  - intros Hready. destruct (proj2 Hiff Hready) as [h Hh].
    now rewrite Hh, Hready.
Qed.

Lemma readiness_queries_agree_witness :
  let w := after wasmOnlyEnv (CallClassifyImage "cat.png")
             (after wasmOnlyEnv CallLoadModel initialWorld) in
  isModelReady w = (Normal true, w) /\ modelStatus w = ready.
Proof.
  intros w.
  destruct (readiness_queries_agree w) as (_ & H & _).
  { apply (Reachable_call wasmOnlyEnv (CallClassifyImage "cat.png")),
      (Reachable_call wasmOnlyEnv CallLoadModel), Reachable_initial. }
  split; [|reflexivity]. apply H. reflexivity.
Defined.

(** * Properties of the application *)

(** ** Cards and their updates *)

Lemma updateById_map {B} (g : App.ClassificationResult -> B) (resultId : string)
    (f : App.ClassificationResult -> App.ClassificationResult)
    (l : list App.ClassificationResult) :
  (forall r, g (f r) = g r) -> map g (updateById resultId f l) = map g l.
Proof.
  intros Hg. unfold updateById. rewrite map_map. apply map_ext.
  intros r. destruct (App.id r =? resultId)%string; [apply Hg|reflexivity].
Qed.

Lemma updateById_length (resultId : string)
    (f : App.ClassificationResult -> App.ClassificationResult)
    (l : list App.ClassificationResult) :
  length (updateById resultId f l) = length l.
Proof. apply length_map. Qed.

Lemma updateById_fresh (resultId : string)
    (f : App.ClassificationResult -> App.ClassificationResult)
    (l : list App.ClassificationResult) :
  (forall r, In r l -> App.id r <> resultId) -> updateById resultId f l = l.
Proof.
  intros H. unfold updateById. rewrite <- (map_id l) at 2. apply map_ext_in.
  intros r Hr. apply H in Hr. apply String.eqb_neq in Hr. now rewrite Hr.
Qed.

Lemma In_updateById (resultId : string)
    (f : App.ClassificationResult -> App.ClassificationResult)
    (l : list App.ClassificationResult) (r : App.ClassificationResult) :
  In r (updateById resultId f l) ->
  (exists x, In x l /\ App.id x = resultId /\ r = f x) \/
  (In r l /\ App.id r <> resultId).
Proof.
  unfold updateById. intros (x & Hx & Hin)%in_map_iff.
  destruct (App.id x =? resultId)%string eqn:E.
  - left. exists x. apply String.eqb_eq in E. now repeat split.
  - right. subst r. apply String.eqb_neq in E. now split.
Qed.

Lemma updateById_other (resultId : string)
    (f : App.ClassificationResult -> App.ClassificationResult)
    (l : list App.ClassificationResult) (r : App.ClassificationResult) :
  In r l -> App.id r <> resultId -> In r (updateById resultId f l).
Proof.
  intros Hin Hne. unfold updateById. apply in_map_iff. exists r.
  apply String.eqb_neq in Hne. now rewrite Hne.
Qed.

(** ** The model, as the component sees it *)

Lemma engineReady_iff (w : World) :
  engineReady w <-> is_Some (classifier w) /\ modelStatus w = ready.
Proof.
  unfold engineReady, isModelReady, read. cbn. split.
  - destruct (classifier w); [|discriminate].
    destruct (modelStatus w); try discriminate. intros _. split; eauto.
  - intros [[h ->] ->]. reflexivity.
Qed.

Lemma engineReady_same (w w' : World) :
  classifier w' = classifier w -> modelStatus w' = modelStatus w ->
  engineReady w' <-> engineReady w.
Proof. intros Hc Hs. rewrite !engineReady_iff. now rewrite Hc, Hs. Qed.

Lemma loadModel_engineReady (env : Env) (w : World) :
  exists w',
    (loadModel env w = (Normal tt, w') /\ engineReady w') \/
    (loadModel env w = (Throw ModelLoadError, w') /\ ~ engineReady w').
Proof.
  destruct (classifier w) as [h|] eqn:Hc.
  - rewrite (loadModel_loaded env w h Hc). eexists. left.
    split; [reflexivity|]. apply engineReady_iff. cbn. rewrite Hc. eauto.
  - rewrite (loadModel_unloaded env w Hc). cbv zeta.
    destruct (pipeline env _ webgpu) as [h1|e1].
    { eexists. left. split; [reflexivity|]. apply engineReady_iff. cbn. eauto. }
    destruct (pipeline env _ wasm) as [h2|e2].
    { eexists. left. split; [reflexivity|]. apply engineReady_iff. cbn. eauto. }
    eexists. right. split; [reflexivity|]. rewrite engineReady_iff. cbn.
    rewrite Hc. intros [[? [=]] _].
Qed.

(** X14: once [initializeModel] is through, the component's flag tells
    what the engine's [isModelReady] tells: either the flag is set, the status
    signal is "ready" and the badge reads "online", or the flag is unset, the
    status signal is "error" and the badge reads "offline".  The cards are left
    as they were. *)
Theorem initializeModel_outcome (rt : App.Runtime) (s : App.State) :
  let s' := initializeModel rt s in
  ((App.modelReady s' = true /\ engineReady (App.world s') /\
    App.modelStatus s' = "ready" /\
    getStatusMessage (App.modelStatus s') = "online") \/
   (App.modelReady s' = false /\ ~ engineReady (App.world s') /\
    App.modelStatus s' = "error" /\
    getStatusMessage (App.modelStatus s') = "offline")) /\
  App.results s' = App.results s /\
  App.objectUrls s' = App.objectUrls s.
Proof.
  intros s'. subst s'. unfold initializeModel. cbn [App.world setModelStatus].
  destruct (loadModel_engineReady (App.engine rt) (App.world s))
    as (w' & [[-> Hready]|[-> Hnot]]).
  - split; [left|now split]. now repeat split.
  - split; [right|now split]. now repeat split.
Qed.

(** ** One file *)

Lemma processFile_begin_not_ready (rt : App.Runtime) (file : App.File)
    (s : App.State) :
  ~ engineReady (App.world s) ->
  processFile_begin rt file s =
  (None,
   setResults
     (updateById (App.resultIdAt rt (App.processed s))
        (withError "neural network not initialized"))
     (setTotalProcessed (fun p => (p + 1)%float)
        (setResults (fun prev => loadingCard rt file (App.processed s) :: prev)
           (createImageUrl (App.objectUrlAt rt (App.processed s)) s)))).
Proof.
  intros Hnot. unfold processFile_begin. cbv zeta.
  cbn [App.world setTotalProcessed setResults createImageUrl].
  unfold engineReady in Hnot.
  destruct (fst (isModelReady (App.world s))) as [[|]| |]; try reflexivity.
  now contradiction Hnot.
Qed.

Lemma processFile_begin_ready (rt : App.Runtime) (file : App.File)
    (s : App.State) (handle : ImageClassificationPipeline) :
  classifier (App.world s) = Some handle ->
  modelStatus (App.world s) = ready ->
  let w := App.world s in
  let imageUrl := App.objectUrlAt rt (App.processed s) in
  processFile_begin rt file s =
  (Some {| App.resultId := App.resultIdAt rt (App.processed s);
           App.startTime := performance_now (App.engine rt) (clockReads w);
           App.promise :=
             Pending (infer handle (length (inferences w)) imageUrl)
               (classifyImage_resume (App.engine rt)
                  (performance_now (App.engine rt) (S (clockReads w)))) |},
   set_world (record_inference imageUrl (tick (tick w)))
     (setTotalProcessed (fun p => (p + 1)%float)
        (setResults (fun prev => loadingCard rt file (App.processed s) :: prev)
           (createImageUrl imageUrl s)))).
Proof.
  intros Hc Hs w imageUrl. subst w imageUrl. unfold processFile_begin. cbv zeta.
  cbn [App.world setTotalProcessed setResults createImageUrl].
  unfold isModelReady, read, classifyImage. cbn [fst tick classifier].
  rewrite Hc, Hs. reflexivity.
Qed.

(** X15: a file handed in before the model is ready gets a card in the
    error state, with the message that the network is not initialized; no
    inference is started for it, and with an id of its own the other cards are
    untouched. *)
Theorem processFile_before_ready (rt : App.Runtime) (file : App.File)
    (s : App.State) :
  ~ engineReady (App.world s) ->
  (forall r, In r (App.results s) ->
             App.id r <> App.resultIdAt rt (App.processed s)) ->
  fst (processFile_begin rt file s) = None /\
  App.results (processFile rt file s) =
    withError "neural network not initialized"
      (loadingCard rt file (App.processed s)) :: App.results s /\
  App.world (processFile rt file s) = App.world s.
Proof.
  intros Hnot Hfresh. unfold processFile.
  rewrite (processFile_begin_not_ready rt file s Hnot).
  split; [reflexivity|]. split; [|reflexivity].
  cbn [App.results setResults setTotalProcessed createImageUrl updateById map
       loadingCard App.id].
  rewrite String.eqb_refl. f_equal.
  now apply updateById_fresh.
Qed.

Lemma processFile_before_ready_witness :
  App.results (processFile (sampleRuntime wasmOnlyEnv) catPng initialState) =
  [ withError "neural network not initialized"
      (loadingCard (sampleRuntime wasmOnlyEnv) catPng 0) ] /\
  inferences (App.world (processFile (sampleRuntime wasmOnlyEnv) catPng
                           initialState)) = [].
Proof.
  destruct (processFile_before_ready (sampleRuntime wasmOnlyEnv) catPng
              initialState) as (_ & Hcards & Hworld).
  - intros H. discriminate H.
  - intros r [].
  - split; [exact Hcards|]. now rewrite Hworld.
Defined.

(** X16: a file handed in when the model is ready always ends as a
    completed card, never as an error: the card carries the decision and the
    confidence [classifyImage] returns and, as its time, the component's own
    measurement around the call (the first and the fourth clock reading), not
    the engine's.  One inference is made, on the card's object URL.  With an id
    of its own the other cards are untouched, and the meme count goes up by
    one exactly when the decision is meme.  An inference that fails shows as a
    completed "regular image" with confidence 0. *)
Theorem processFile_when_ready (rt : App.Runtime) (file : App.File)
    (s : App.State) (handle : ImageClassificationPipeline) :
  classifier (App.world s) = Some handle ->
  modelStatus (App.world s) = ready ->
  (forall r, In r (App.results s) ->
             App.id r <> App.resultIdAt rt (App.processed s)) ->
  let w := App.world s in
  let now := performance_now (App.engine rt) in
  let c := clockReads w in
  let imageUrl := App.objectUrlAt rt (App.processed s) in
  let reply := infer handle (length (inferences w)) imageUrl in
  let result := classificationOf reply (now (S (S c)) - now (S c))%float in
  let card :=
    withClassification result (now (S (S (S c))) - now c)%float
      (loadingCard rt file (App.processed s)) in
  let s' := processFile rt file s in
  App.results s' = card :: App.results s /\
  inferences (App.world s') = inferences w ++ [imageUrl] /\
  memeCount (App.results s') =
    (if isMeme result then 1 else 0) + memeCount (App.results s) /\
  ((exists e, reply = Failed e) ->
   App.status card = App.StatusCompleted /\ App.isMeme card = false /\
   App.confidence card = 0%float /\ getResultLabel card = "regular image").
Proof.
  intros Hc Hs Hfresh w now c imageUrl reply result card s'.
  assert (App.results s' = card :: App.results s /\
          inferences (App.world s') = inferences w ++ [imageUrl]) as [Hcards Hinf].
  { subst s'. unfold processFile.
    rewrite (processFile_begin_ready rt file s handle Hc Hs).
    unfold processFile_resume. cbn [App.promise App.world set_world].
    rewrite classifyImage_resume_spec.
    cbn [App.results App.world setResults set_world setTotalProcessed
         createImageUrl App.resultId App.startTime updateById map
         loadingCard App.id tick record_inference clockReads inferences].
    rewrite String.eqb_refl. split; [|reflexivity].
    f_equal. now apply updateById_fresh. }
  split; [exact Hcards|]. split; [exact Hinf|]. split.
  - rewrite Hcards. unfold memeCount. cbn [List.filter].
    change (isCompleted card) with true. change (App.isMeme card) with (isMeme result).
    now destruct (isMeme result).
  - intros [e He]. subst card result. rewrite He. now repeat split.
Qed.

Lemma processFile_when_ready_witness :
  let s := set_world pickyWorld initialState in
  let s' := processFile (sampleRuntime wasmOnlyEnv) dogeGif s in
  map App.status (App.results s') = [App.StatusCompleted] /\
  map getResultLabel (App.results s') = ["certified meme"] /\
  map App.inferenceTimeMs (App.results s') = [3%float] /\
  memeCount (App.results s') = 1.
Proof.
  intros s s'.
  destruct (processFile_when_ready (sampleRuntime wasmOnlyEnv) dogeGif s
              pickyHandle eq_refl eq_refl) as (Hcards & _ & Hcount & _).
  { intros r []. }
  fold s' in Hcards, Hcount. rewrite Hcount, Hcards. now repeat split.
Defined.

(** ** Many files *)

Lemma engineReady_cases (w : World) :
  (exists handle, classifier w = Some handle /\ modelStatus w = ready /\
                  engineReady w) \/
  ~ engineReady w.
Proof.
  destruct (classifier w) as [h|] eqn:Hc.
  - destruct (modelStatus w) eqn:Hs;
      try (right; rewrite engineReady_iff, Hs; intros [_ Hbad];
           discriminate Hbad).
    left. exists h. repeat split. apply engineReady_iff. rewrite Hc, Hs. eauto.
  - right. rewrite engineReady_iff, Hc. intros [[? [=]] _].
Qed.

(** What one call of [processFile], up to its [await], does to the state. *)
Lemma processFile_begin_facts (rt : App.Runtime) (file : App.File)
    (s : App.State) :
  let k := App.processed s in
  let o := fst (processFile_begin rt file s) in
  let s1 := snd (processFile_begin rt file s) in
  map App.filename (App.results s1) =
    App.name file :: map App.filename (App.results s) /\
  map App.imageUrl (App.results s1) =
    App.objectUrlAt rt k :: map App.imageUrl (App.results s) /\
  App.objectUrls s1 = App.objectUrls s ++ [App.objectUrlAt rt k] /\
  App.processed s1 = S k /\
  classifier (App.world s1) = classifier (App.world s) /\
  modelStatus (App.world s1) = modelStatus (App.world s) /\
  App.modelReady s1 = App.modelReady s /\
  App.modelStatus s1 = App.modelStatus s /\
  (engineReady (App.world s) ->
   exists p, o = Some p /\ awaitsClassifyImage rt p /\
             App.resultId p = App.resultIdAt rt k) /\
  (~ engineReady (App.world s) -> o = None) /\
  (forall r, In r (App.results s1) -> App.status r = App.StatusLoading ->
             (App.id r = App.resultIdAt rt k /\ o <> None) \/
             In r (App.results s)).
Proof.
  intros k o s1. subst k o s1.
  destruct (engineReady_cases (App.world s)) as [(h & Hc & Hs & Hready)|Hnot].
  - rewrite (processFile_begin_ready rt file s h Hc Hs). cbn.
    repeat split; try reflexivity.
    + intros _. eexists. split; [reflexivity|]. split; [|reflexivity].
      eexists _, _. reflexivity.
    + intros Hnot. contradiction.
    + intros r [<-|Hr] _; [left|now right]. now split.
  - rewrite (processFile_begin_not_ready rt file s Hnot).
    cbn [fst snd App.results App.objectUrls App.processed App.world
         App.modelReady App.modelStatus setResults setTotalProcessed
         createImageUrl].
    rewrite !updateById_map by reflexivity.
    repeat split; try reflexivity.
    + intros Hready. contradiction.
    + intros r Hr Hstatus. right.
      apply In_updateById in Hr as [(x & _ & _ & ->)|[[<-|Hr] Hid]].
      * discriminate Hstatus.
      * now contradiction Hid.
      * exact Hr.
Qed.

Lemma forEachFile_facts (rt : App.Runtime) (files : list App.File) :
  forall s : App.State,
    let images :=
      List.filter (fun f => String.prefix "image/" (App.type f)) files in
    let ps := fst (forEachFile rt files s) in
    let s' := snd (forEachFile rt files s) in
    map App.filename (App.results s') =
      rev (map App.name images) ++ map App.filename (App.results s) /\
    App.processed s' = App.processed s + length images /\
    (engineReady (App.world s) -> length ps = length images) /\
    (~ engineReady (App.world s) -> ps = []).
Proof.
  induction files as [|file rest IH]; intros s; cbn [forEachFile List.filter].
  - cbn. repeat split; auto.
  - destruct (String.prefix "image/" (App.type file)); [|apply IH].
    pose proof (processFile_begin_facts rt file s) as Hbegin. cbv zeta in Hbegin.
    destruct (processFile_begin rt file s) as [o s1]. cbn [fst snd] in Hbegin.
    destruct Hbegin as (Hnames & _ & _ & Hk & Hc & Hs & _ & _ & Hsome & Hnone & _).
    specialize (IH s1). cbv zeta in IH.
    destruct (forEachFile rt rest s1) as [ps s2]. cbn [fst snd] in IH |- *.
    destruct IH as (IHnames & IHk & IHsome & IHnone).
    pose proof (engineReady_same (App.world s) (App.world s1) Hc Hs) as Hsame.
    split; [|split; [|split]].
    + rewrite IHnames, Hnames. cbn [map rev length]. now rewrite <- app_assoc.
    + rewrite IHk, Hk. cbn [length]. lia.
    + intros Hready. destruct (Hsome Hready) as (p & -> & _).
      cbn [length]. f_equal. apply IHsome, Hsame, Hready.
    + intros Hnot. rewrite (Hnone Hnot). apply IHnone. now rewrite Hsame.
Qed.

(** X17: [handleFileSelect] gives every file whose type starts with
    "image/" one card, newest first, and skips the others; on [null] or an
    empty list nothing changes.  On a ready model every image starts one
    inference; otherwise none does. *)
Theorem handleFileSelect_cards (rt : App.Runtime)
    (files : option (list App.File)) (s : App.State) :
  let ps := fst (handleFileSelect rt files s) in
  let s' := snd (handleFileSelect rt files s) in
  map App.filename (App.results s') =
    rev (map App.name (imagesOf files)) ++ map App.filename (App.results s) /\
  (imagesOf files = [] -> s' = s /\ ps = []) /\
  (engineReady (App.world s) -> length ps = length (imagesOf files)) /\
  (~ engineReady (App.world s) -> ps = []).
Proof.
  intros ps s'. subst ps s'.
  destruct files as [[|file rest]|]; try (cbn; now repeat split).
  change (handleFileSelect rt (Some (file :: rest)) s)
    with (forEachFile rt (file :: rest) s).
  destruct (forEachFile_facts rt (file :: rest) s) as (Hnames & _ & Hsome & Hnone).
  split; [exact Hnames|]. split; [|split; [exact Hsome|exact Hnone]].
  unfold imagesOf. intros Himages.
  assert (forall l s0,
            List.filter (fun f => String.prefix "image/" (App.type f)) l = [] ->
            forEachFile rt l s0 = ([], s0)) as Hskip.
  { induction l as [|f l IHl]; intros s0 Hl; [reflexivity|].
    cbn in Hl |- *. destruct (String.prefix "image/" (App.type f));
      [discriminate|now apply IHl]. }
  now rewrite (Hskip _ s Himages).
Qed.

Lemma handleFileSelect_cards_witness :
  let s := set_world pickyWorld initialState in
  let run := handleFileSelect (sampleRuntime wasmOnlyEnv)
               (Some [catPng; notesTxt; dogeGif]) s in
  map App.filename (App.results (snd run)) = ["doge.gif"; "cat.png"] /\
  length (fst run) = 2 /\
  fst (handleFileSelect (sampleRuntime wasmOnlyEnv)
         (Some [catPng; notesTxt; dogeGif]) initialState) = [] /\
  snd (handleFileSelect (sampleRuntime wasmOnlyEnv) (Some [notesTxt]) s) = s.
Proof.
  intros s run.
  destruct (handleFileSelect_cards (sampleRuntime wasmOnlyEnv)
              (Some [catPng; notesTxt; dogeGif]) s) as (Hnames & _ & Hsome & _).
  destruct (handleFileSelect_cards (sampleRuntime wasmOnlyEnv)
              (Some [catPng; notesTxt; dogeGif]) initialState) as (_ & _ & _ & Hnone).
  destruct (handleFileSelect_cards (sampleRuntime wasmOnlyEnv)
              (Some [notesTxt]) s) as (_ & Hskip & _).
  split; [exact Hnames|]. split; [exact (Hsome eq_refl)|]. split.
  - apply Hnone. intros H. discriminate H.
  - exact (proj1 (Hskip eq_refl)).
Defined.

(** ** Completions and clearing *)

(** X18: the completion of a suspended [processFile] only rewrites cards:
    it adds none, removes none, keeps their order, ids, file names, object URLs
    and timestamps, leaves the cards with another id as they are, and neither
    creates nor revokes an object URL.  So a result that arrives after "clear
    all" does not bring its card back. *)
Theorem processFile_resume_only_updates (rt : App.Runtime) (p : App.InFlight)
    (s : App.State) :
  let s' := processFile_resume rt p s in
  map App.id (App.results s') = map App.id (App.results s) /\
  map App.filename (App.results s') = map App.filename (App.results s) /\
  map App.imageUrl (App.results s') = map App.imageUrl (App.results s) /\
  map App.timestamp (App.results s') = map App.timestamp (App.results s) /\
  (forall r, In r (App.results s) -> App.id r <> App.resultId p ->
             In r (App.results s')) /\
  App.objectUrls s' = App.objectUrls s /\
  App.results (processFile_resume rt p (clearResults s)) = [].
Proof.
  intros s'. subst s'. unfold processFile_resume.
  split; [|split; [|split; [|split; [|split; [|split]]]]].
  1-6: destruct (match App.promise p with
                 | Settled c => fun w => (c, w)
                 | Pending reply resume => resume reply
                 end (App.world s)) as [[result|e|] w];
       cbn [App.results App.objectUrls setResults set_world];
       rewrite ?updateById_map by reflexivity; try reflexivity;
       try (intros r Hr Hid; now apply updateById_other); auto.
  cbn [App.world clearResults setResults].
  destruct (match App.promise p with
            | Settled c => fun w => (c, w)
            | Pending reply resume => resume reply
            end _) as [[result|e|] w]; reflexivity.
Qed.

Lemma processFile_resume_only_updates_witness :
  let rt := sampleRuntime wasmOnlyEnv in
  map App.id (App.results (processFile_resume rt rejectedCall (state busySystem))) =
    ["B"; "A"] /\
  map App.status
    (App.results (processFile_resume rt rejectedCall (state busySystem))) =
    [App.StatusLoading; App.StatusError] /\
  App.results
    (processFile_resume rt rejectedCall (clearResults (state busySystem))) = [].
Proof.
  intros rt.
  destruct (processFile_resume_only_updates rt rejectedCall (state busySystem))
    as (Hids & _ & _ & _ & _ & _ & Hcleared).
  split; [rewrite Hids; reflexivity|]. split; [reflexivity|exact Hcleared].
Defined.

Lemma revokeAll_facts (rs : list App.ClassificationResult) :
  forall s : App.State,
    let s' := fold_left (fun s r => revokeObjectURL (App.imageUrl r) s) rs s in
    App.world s' = App.world s /\
    App.modelReady s' = App.modelReady s /\
    App.modelStatus s' = App.modelStatus s /\
    (forall u, In u (App.objectUrls s') <->
               In u (App.objectUrls s) /\ ~ In u (map App.imageUrl rs)).
Proof.
  induction rs as [|r rs IH]; intros s; cbn [fold_left map].
  - split; [reflexivity|]. split; [reflexivity|]. split; [reflexivity|].
    intros u. split; [now split|now intros [H _]].
  - destruct (IH (revokeObjectURL (App.imageUrl r) s)) as (-> & -> & -> & Hurls).
    split; [reflexivity|]. split; [reflexivity|]. split; [reflexivity|].
    intros u. rewrite Hurls. cbn [App.objectUrls revokeObjectURL].
    rewrite filter_In, negb_true_iff, String.eqb_neq. split.
    + intros [[Hin Hne] Hrest]. split; [exact Hin|].
      intros [Heq|Hold]; [now symmetry in Heq|contradiction].
    + intros [Hin Hnot]. split; [split; [exact Hin|]|].
      * intros ->. apply Hnot. now left.
      * intros Hrest. apply Hnot. now right.
Qed.

Lemma In_delete_other (l : list App.InFlight) :
  forall (i : nat) (p q : App.InFlight),
    l !! i = Some p -> In q l -> App.resultId q <> App.resultId p ->
    In q (delete i l).
Proof.
  induction l as [|x l IH]; intros [|i] p q Hi Hq Hne; try discriminate Hi.
  - injection Hi as ->. destruct Hq as [->|Hq]; [contradiction|exact Hq].
  - destruct Hq as [->|Hq]; [now left|]. right. now apply (IH i p).
Qed.

Lemma In_delete (l : list App.InFlight) :
  forall (i : nat) (q : App.InFlight), In q (delete i l) -> In q l.
Proof.
  induction l as [|x l IH]; intros [|i] q Hq; try contradiction.
  - now right.
  - destruct Hq as [->|Hq]; [now left|]. right. now apply (IH i).
Qed.

(** ** What holds while the component runs *)

Lemma Invariant_start (rt : App.Runtime) : Invariant rt initialState [].
Proof.
  split; cbn; try contradiction; try (split; discriminate); auto.
Qed.

Lemma Invariant_same (rt : App.Runtime) (s s' : App.State)
    (waiting : list App.InFlight) :
  Invariant rt s waiting ->
  classifier (App.world s') = classifier (App.world s) ->
  modelStatus (App.world s') = modelStatus (App.world s) ->
  App.modelReady s' = App.modelReady s ->
  App.modelStatus s' = App.modelStatus s ->
  App.results s' = App.results s ->
  (forall u, In u (App.objectUrls s') -> In u (App.objectUrls s)) ->
  Invariant rt s' waiting.
Proof.
  intros [Hw Hr Hs Hk Hu Hl] Hc Hm Hready Hstatus Hres Hurls.
  split; rewrite ?Hready, ?Hstatus, ?Hres; try assumption.
  - now rewrite (engineReady_same _ _ Hc Hm).
  - intros u Hin. apply Hu, Hurls, Hin.
Qed.

Lemma Invariant_initializeModel (rt : App.Runtime) (s : App.State)
    (waiting : list App.InFlight) :
  Invariant rt s waiting -> Invariant rt (initializeModel rt s) waiting.
Proof.
  intros [Hw Hr Hs Hk Hu Hl]. unfold initializeModel.
  cbn [App.world setModelStatus].
  destruct (loadModel_engineReady (App.engine rt) (App.world s))
    as (w' & [[-> Hready]|[-> Hnot]]); split; cbn; auto.
  - now split.
  - now split.
  - split; [discriminate|]. intros H. contradiction.
  - split; discriminate.
Qed.

Lemma Invariant_begin (rt : App.Runtime) (file : App.File) (s : App.State)
    (waiting : list App.InFlight) :
  Invariant rt s waiting ->
  Invariant rt (snd (processFile_begin rt file s))
    (waiting ++ match fst (processFile_begin rt file s) with
                | Some p => [p]
                | None => []
                end).
Proof.
  intros [Hw Hr Hs Hk Hu Hl].
  pose proof (processFile_begin_facts rt file s) as Hbegin. cbv zeta in Hbegin.
  destruct (processFile_begin rt file s) as [o s1]. cbn [fst snd] in *.
  destruct Hbegin
    as (_ & Hurls & Hlive & _ & Hc & Hm & Hready & Hstatus & Hsome & Hnone & Hload).
  split.
  - intros p [Hp|Hp]%in_app_iff; [now apply Hw|].
    destruct (engineReady_cases (App.world s)) as [(h & _ & _ & He)|Hnot].
    + destruct (Hsome He) as (q & -> & Hq & _).
      destruct Hp as [<-|[]]. exact Hq.
    + rewrite (Hnone Hnot) in Hp. contradiction.
  - now rewrite Hready, (engineReady_same _ _ Hc Hm).
  - now rewrite Hstatus, Hready.
  - now rewrite Hstatus.
  - rewrite Hlive, Hurls. intros u [Hin|[<-|[]]]%in_app_iff; [|now left].
    right. now apply Hu.
  - intros r Hr' Hloading.
    destruct (Hload r Hr' Hloading) as [[Hid Ho]|Hold].
    + destruct (engineReady_cases (App.world s)) as [(h & _ & _ & He)|Hnot].
      * destruct (Hsome He) as (q & -> & _ & Hq).
        exists q. split; [apply in_app_iff; right; now left|congruence].
      * now rewrite (Hnone Hnot) in Ho.
    + destruct (Hl r Hold Hloading) as (q & Hq & Hid).
      exists q. split; [apply in_app_iff; now left|exact Hid].
Qed.

Lemma Invariant_forEachFile (rt : App.Runtime) (files : list App.File) :
  forall (s : App.State) (waiting : list App.InFlight),
    Invariant rt s waiting ->
    Invariant rt (snd (forEachFile rt files s))
      (waiting ++ fst (forEachFile rt files s)).
Proof.
  induction files as [|file rest IH]; intros s waiting Hinv; cbn [forEachFile].
  - cbn. now rewrite app_nil_r.
  - destruct (String.prefix "image/" (App.type file)); [|now apply IH].
    pose proof (Invariant_begin rt file s waiting Hinv) as Hbegin.
    destruct (processFile_begin rt file s) as [o s1]. cbn [fst snd] in Hbegin.
    specialize (IH s1 _ Hbegin).
    destruct (forEachFile rt rest s1) as [ps s2]. cbn [fst snd] in IH |- *.
    rewrite <- app_assoc in IH. now destruct o.
Qed.

Lemma Invariant_handleFileSelect (rt : App.Runtime)
    (files : option (list App.File)) (s : App.State)
    (waiting : list App.InFlight) :
  Invariant rt s waiting ->
  Invariant rt (snd (handleFileSelect rt files s))
    (waiting ++ fst (handleFileSelect rt files s)).
Proof.
  intros Hinv. destruct files as [[|file rest]|];
    try (cbn; now rewrite app_nil_r).
  apply (Invariant_forEachFile rt (file :: rest)), Hinv.
Qed.

Lemma Invariant_resume (rt : App.Runtime) (s : App.State)
    (waiting : list App.InFlight) (i : nat) (p : App.InFlight) :
  Invariant rt s waiting ->
  waiting !! i = Some p ->
  Invariant rt (processFile_resume rt p s) (delete i waiting).
Proof.
  intros [Hw Hr Hs Hk Hu Hl] Hi.
  assert (In p waiting) as Hp.
  { apply list_elem_of_In, list_elem_of_lookup. eauto. }
  destruct (Hw p Hp) as (reply & t & Hpromise).
  unfold processFile_resume. rewrite Hpromise, classifyImage_resume_spec.
  split; cbn [App.world App.modelReady App.modelStatus App.results
              App.objectUrls setResults set_world]; try assumption.
  - intros q Hq. apply Hw. eapply In_delete, Hq.
  - rewrite updateById_map by reflexivity. exact Hu.
  - intros r Hr' Hloading.
    apply In_updateById in Hr' as [(x & _ & _ & ->)|[Hold Hid]];
      [discriminate Hloading|].
    destruct (Hl r Hold Hloading) as (q & Hq & Hqid).
    exists q. split; [|exact Hqid].
    apply (In_delete_other waiting i p q Hi Hq). congruence.
Qed.

Lemma no_elements {A} (l : list A) : (forall x, ~ In x l) -> l = [].
Proof.
  destruct l as [|x l]; [reflexivity|]. intros H. destruct (H x). now left.
Qed.

Lemma clearResults_facts (rt : App.Runtime) (s : App.State)
    (waiting : list App.InFlight) :
  Invariant rt s waiting ->
  App.results (clearResults s) = [] /\
  App.objectUrls (clearResults s) = [] /\
  App.world (clearResults s) = App.world s /\
  App.modelReady (clearResults s) = App.modelReady s /\
  App.modelStatus (clearResults s) = App.modelStatus s.
Proof.
  intros [Hw Hr Hs Hk Hu Hl].
  destruct (revokeAll_facts (App.results s) s) as (Hworld & Hready & Hstatus & Hurls).
  unfold clearResults. cbn [App.results App.objectUrls App.world App.modelReady
                            App.modelStatus setResults].
  repeat split; try assumption.
  apply no_elements. intros u Hin. apply Hurls in Hin as [Hin Hnot].
  apply Hnot, Hu, Hin.
Qed.

Lemma Invariant_clearResults (rt : App.Runtime) (s : App.State)
    (waiting : list App.InFlight) :
  Invariant rt s waiting -> Invariant rt (clearResults s) waiting.
Proof.
  intros Hinv.
  destruct (clearResults_facts rt s waiting Hinv) as (Hres & Hurls & Hw & Hr & Hs).
  destruct Hinv as [Iw Ir Is Ik Iu Il].
  split; rewrite ?Hres, ?Hurls, ?Hw, ?Hr, ?Hs; try assumption; contradiction.
Qed.

Lemma Invariant_exportResults (rt : App.Runtime) (s : App.State)
    (waiting : list App.InFlight) :
  Invariant rt s waiting -> Invariant rt (exportResults rt s) waiting.
Proof.
  intros Hinv. apply (Invariant_same rt s); try reflexivity; [exact Hinv|].
  unfold exportResults, download. cbn [App.objectUrls revokeObjectURL].
  intros u [Hin Hne]%filter_In. apply in_app_iff in Hin as [Hin|[<-|[]]];
    [exact Hin|]. now rewrite String.eqb_refl in Hne.
Qed.

Lemma Running_Invariant (rt : App.Runtime) (sys : System) :
  Running rt sys -> Invariant rt (state sys) (inFlight sys).
Proof.
  induction 1 as [|e sys _ IH]; [apply Invariant_start|].
  destruct e as [|files|files| | |i| |]; cbn [react].
  - now apply Invariant_initializeModel.
  - pose proof (Invariant_handleFileSelect rt files _ _ IH) as H.
    now destruct (handleFileSelect rt files (state sys)).
  - unfold handleDrop.
    assert (Invariant rt (setDragOver false (state sys)) (inFlight sys)) as IH'.
    { now apply (Invariant_same rt (state sys)). }
    pose proof (Invariant_handleFileSelect rt files _ _ IH') as H.
    now destruct (handleFileSelect rt files (setDragOver false (state sys))).
  - now apply (Invariant_same rt (state sys)).
  - now apply (Invariant_same rt (state sys)).
  - destruct (inFlight sys !! i) as [p|] eqn:Hi; [|exact IH].
    now apply Invariant_resume.
  - now apply Invariant_clearResults.
  - now apply Invariant_exportResults.
Qed.

Lemma Running_busySystem : Running (sampleRuntime wasmOnlyEnv) busySystem.
Proof. do 2 apply Running_react. apply Running_start. Qed.

(** X19: between the events of a run (the loading of the model counting as
    one) the component's [modelReady] flag is set exactly when the engine's
    [isModelReady] holds, and exactly when the status signal is "ready"; the
    status badge never reads "unknown". *)
Theorem ready_flag_agrees (rt : App.Runtime) (sys : System) :
  Running rt sys ->
  (App.modelReady (state sys) = true <-> engineReady (App.world (state sys))) /\
  (App.modelStatus (state sys) = "ready" <->
   App.modelReady (state sys) = true) /\
  getStatusMessage (App.modelStatus (state sys)) <> "unknown".
Proof.
  intros [Hw Hr Hs Hk Hu Hl]%Running_Invariant.
  split; [exact Hr|]. split; [exact Hs|].
  destruct Hk as [->|[->| ->]]; discriminate.
Qed.

Lemma ready_flag_agrees_witness :
  App.modelReady (state busySystem) = true /\
  engineReady (App.world (state busySystem)) /\
  getStatusMessage (App.modelStatus (state busySystem)) = "online".
Proof.
  destruct (ready_flag_agrees (sampleRuntime wasmOnlyEnv) busySystem
              Running_busySystem) as (Hflag & _ & _).
  split; [reflexivity|]. split; [|reflexivity]. apply Hflag. reflexivity.
Defined.

(** X20: no object URL leaks.  Between the events of a run each object URL
    that is still live belongs to a card, and "clear all" leaves no card and no
    live object URL. *)
Theorem clearResults_revokes_every_url (rt : App.Runtime) (sys : System) :
  Running rt sys ->
  (forall u, In u (App.objectUrls (state sys)) ->
             In u (map App.imageUrl (App.results (state sys)))) /\
  App.results (clearResults (state sys)) = [] /\
  App.objectUrls (clearResults (state sys)) = [].
Proof.
  intros Hinv%Running_Invariant.
  destruct (clearResults_facts rt _ _ Hinv) as (Hres & Hurls & _).
  split; [apply (inv_urls _ _ _ Hinv)|]. now split.
Qed.

Lemma clearResults_revokes_every_url_witness :
  App.objectUrls (state busySystem) = ["blob:A"; "blob:B"] /\
  App.objectUrls (clearResults (state busySystem)) = [].
Proof.
  split; [reflexivity|].
  exact (proj2 (proj2 (clearResults_revokes_every_url
                         (sampleRuntime wasmOnlyEnv) busySystem
                         Running_busySystem))).
Defined.

(** X21: no card is left loading.  Between the events of a run each card in
    the loading state belongs to a call of [processFile] that is still waiting
    for its inference; when that inference settles, however it does, every card
    with the call's id is completed.  With no inference outstanding no card is
    loading. *)
Theorem no_card_loads_forever (rt : App.Runtime) (sys : System) :
  Running rt sys ->
  (forall r, In r (App.results (state sys)) ->
             App.status r = App.StatusLoading ->
             exists p, In p (inFlight sys) /\ App.resultId p = App.id r) /\
  (forall i p r, inFlight sys !! i = Some p ->
                 In r (App.results (state (react rt (Completed i) sys))) ->
                 App.id r = App.resultId p ->
                 App.status r = App.StatusCompleted) /\
  (inFlight sys = [] ->
   forall r, In r (App.results (state sys)) ->
             App.status r <> App.StatusLoading).
Proof.
  intros Hinv%Running_Invariant. split; [apply (inv_loading _ _ _ Hinv)|]. split.
  - intros i p r Hi Hr Hid. cbn [react] in Hr. rewrite Hi in Hr. cbn [state] in Hr.
    assert (In p (inFlight sys)) as Hp.
    { apply list_elem_of_In, list_elem_of_lookup. eauto. }
    destruct (inv_waiting _ _ _ Hinv p Hp) as (reply & t & Hpromise).
    unfold processFile_resume in Hr.
    rewrite Hpromise, classifyImage_resume_spec in Hr.
    cbn [App.results setResults set_world] in Hr.
    apply In_updateById in Hr as [(x & _ & _ & ->)|[_ Hne]];
      [reflexivity|contradiction].
  - intros Hnone r Hr Hloading.
    destruct (inv_loading _ _ _ Hinv r Hr Hloading) as (p & Hp & _).
    rewrite Hnone in Hp. contradiction.
Qed.

Lemma no_card_loads_forever_witness :
  let rt := sampleRuntime wasmOnlyEnv in
  let done := react rt (Completed 0) (react rt (Completed 1) busySystem) in
  map App.status (App.results (state busySystem)) =
    [App.StatusLoading; App.StatusLoading] /\
  inFlight done = [] /\
  length (App.results (state done)) = 2 /\
  forall r, In r (App.results (state done)) ->
            App.status r <> App.StatusLoading.
Proof.
  intros rt done.
  assert (Running rt done) as Hrun.
  { do 2 apply Running_react. apply Running_busySystem. }
  destruct (no_card_loads_forever rt done Hrun) as (_ & _ & Hnone).
  split; [reflexivity|]. split; [reflexivity|]. split; [reflexivity|].
  apply Hnone. reflexivity.
Defined.

(** ** Export *)

Lemma filter_other_app (url : string) (l : list string) :
  ~ In url l ->
  List.filter (fun u => negb (u =? url)%string) (l ++ [url]) = l.
Proof.
  intros Hfresh. rewrite List.filter_app. cbn. rewrite String.eqb_refl. cbn.
  rewrite app_nil_r. induction l as [|u l IH]; [reflexivity|].
  cbn. destruct (u =? url)%string eqn:E.
  - apply String.eqb_eq in E. subst u. destruct Hfresh. now left.
  - cbn. f_equal. apply IH. intros Hin. apply Hfresh. now right.
Qed.

(** X22: an export downloads one row per completed card, in the order of
    the cards, with the card's file name, decision and confidence; cards that
    are loading or in error are not exported.  The cards are left as they are
    and, the blob's URL being a new one, so are their object URLs. *)
Theorem exportResults_exports_completed (rt : App.Runtime) (s : App.State) :
  ~ In (App.exportUrlAt rt (App.exports s)) (App.objectUrls s) ->
  let s' := exportResults rt s in
  let completed := List.filter isCompleted (App.results s) in
  App.results s' = App.results s /\
  App.objectUrls s' = App.objectUrls s /\
  exists data,
    App.downloads s' =
      App.downloads s ++ [(App.exportNameAt rt (App.exports s), data)] /\
    map App.row_filename data = map App.filename completed /\
    map App.row_isMeme data = map App.isMeme completed /\
    map App.row_confidence data = map App.confidence completed.
Proof.
  intros Hfresh s' completed. subst s' completed.
  unfold exportResults, download.
  cbn [App.results App.objectUrls App.downloads revokeObjectURL].
  split; [reflexivity|]. split; [now apply filter_other_app|].
  exists (exportData rt (App.results s)). split; [reflexivity|].
  unfold exportData. rewrite !map_map. now repeat split.
Qed.

Lemma exportResults_exports_completed_witness :
  let rt := sampleRuntime wasmOnlyEnv in
  let s := state (react rt (Completed 0) busySystem) in
  map App.status (App.results s) = [App.StatusLoading; App.StatusCompleted] /\
  App.objectUrls (exportResults rt s) = ["blob:A"; "blob:B"] /\
  exists data,
    App.downloads (exportResults rt s) = [("visagist_analysis_A.json", data)] /\
    map App.row_filename data = ["cat.png"].
Proof.
  intros rt s.
  destruct (exportResults_exports_completed rt s) as (_ & Hurls & data & Hd & Hn & _).
  { vm_compute. intros [H|[H|[]]]; discriminate H. }
  split; [vm_compute; reflexivity|].
  split; [rewrite Hurls; vm_compute; reflexivity|].
  exists data. split.
  - rewrite Hd. vm_compute. reflexivity.
  - rewrite Hn. vm_compute. reflexivity.
Defined.
